(** * Fee-estimate accuracy analysis: a shallow embedding of [util.py]

    The development follows the Python module function by function.

    - Python integers are [Z].  A finite floating-point value is kept as an
      exact rational ([Q]); the two infinities and NaN are separate values.
      [int(float(x) / 1000)] is then the truncation toward zero of the
      exact quotient.  For an integer [x] of magnitude below [2 ^ 53] this
      is what binary64 arithmetic gives as well: the rounding error of the
      quotient stays below [1 / 1000], the least distance of a quotient
      that is not an integer from the integers.
    - What [json.load] returns is a value of the type [json]; the blocks
      dictionary and the two result dictionaries are [gmap]s keyed by [Z].
    - Exceptions are values of an error monad; what [print] writes in an
      exception handler is kept as the list of the exceptions caught.
    - A [while] loop is a function with fuel that returns the state in
      which it stops; the fuel given by its caller lets it run until its
      condition is false.
    - A line of the report is kept by its parts, not as text; the order in
      which a result dictionary lists its keys is followed beside the
      [gmap] that holds its entries. *)

From Stdlib Require Import ZArith QArith Qround String Ascii List Lia.
From stdpp Require Import base option list list_numbers sorting gmap.

Local Open Scope Z_scope.
Local Set Warnings "-register-all".

(** ** Exceptions and the error monad *)

(** The exception classes that the module can meet.  [OSError] is the class
    that Python 3 also names [IOError]; a JSON syntax error is a
    [ValueError] (its subclass [JSONDecodeError]). *)
Inductive exn : Set :=
  | OSError
  | ValueError
  | KeyError
  | TypeError
  | OverflowError
  | ZeroDivisionError.

Inductive result (A : Type) : Type :=
  | Ok (a : A)
  | Raise (e : exn).
Arguments Ok {A} a.
Arguments Raise {A} e.

#[global] Instance result_ret : MRet result := fun A a => Ok a.
#[global] Instance result_bind : MBind result := fun A B f m =>
  match m with
  | Ok a => f a
  | Raise e => Raise e
  end.
#[global] Instance result_fmap : FMap result := fun A B f m =>
  match m with
  | Ok a => Ok (f a)
  | Raise e => Raise e
  end.

(** Evaluation of a list comprehension whose element expression can raise:
    the elements are computed left to right and the first exception ends
    the whole comprehension. *)
Fixpoint comprehension {A B : Type} (f : A -> result B) (l : list A)
  : result (list B) :=
  match l with
  | [] => Ok []
  | x :: rest =>
      y ← f x;
      ys ← comprehension f rest;
      Ok (y :: ys)
  end.

(** ** Python values read from JSON *)

(** A Python float: a finite value, an infinity or NaN. *)
Inductive pyfloat : Type :=
  | Finite (q : Q)
  | Infinity (negative : bool)
  | NaN.

(** What [json.load] returns. A JSON object is given by its items; a key
    is looked up from the left. *)
Inductive json : Type :=
  | JNull
  | JBool (b : bool)
  | JInt (z : Z)
  | JFloat (f : pyfloat)
  | JStr (s : string)
  | JArr (items : list json)
  | JObj (fields : list (string * json)).

Fixpoint assoc (key : string) (fields : list (string * json)) : option json :=
  match fields with
  | [] => None
  | (k, v) :: rest => if String.eqb k key then Some v else assoc key rest
  end.

(** [v[key]] for a string key: only a dictionary can be subscripted by a
    string, and a missing key is a [KeyError]. *)
Definition subscript (v : json) (key : string) : result json :=
  match v with
  | JObj fields =>
      match assoc key fields with
      | Some x => Ok x
      | None => Raise KeyError
      end
  | _ => Raise TypeError
  end.

(** [for x in v]: a list yields its items, a dictionary its keys and a
    string its characters; nothing else can be iterated. *)
Definition iterate (v : json) : result (list json) :=
  match v with
  | JArr items => Ok items
  | JObj fields => Ok (map (fun kv => JStr (fst kv)) fields)
  | JStr s =>
      Ok (map (fun c => JStr (String c EmptyString)) (list_ascii_of_string s))
  | _ => Raise TypeError
  end.

(** ** The built-in conversions [float] and [int] *)

Module PyFloat.

Definition code (c : ascii) : Z := Z.of_nat (nat_of_ascii c).

Definition is_space (c : ascii) : bool :=
  (code c =? 32) || ((9 <=? code c) && (code c <=? 13))
  || ((28 <=? code c) && (code c <=? 31)).

Definition digit (c : ascii) : option Z :=
  if (48 <=? code c) && (code c <=? 57) then Some (code c - 48) else None.

Definition lower (c : ascii) : ascii :=
  if (65 <=? code c) && (code c <=? 90)
  then ascii_of_nat (nat_of_ascii c + 32) else c.

Definition is_char (c : ascii) (n : Z) : bool := code c =? n.

Fixpoint lstrip (l : list ascii) : list ascii :=
  match l with
  | c :: rest => if is_space c then lstrip rest else l
  | [] => []
  end.

Definition strip (l : list ascii) : list ascii :=
  rev (lstrip (rev (lstrip l))).

(** A digit part: digits, with single underscores allowed between two
    digits.  Returns the accumulated value, the number of digits read and
    the unread rest. *)
Fixpoint digitpart (acc : Z) (n : nat) (l : list ascii)
  : Z * nat * list ascii :=
  match l with
  | c :: rest =>
      match digit c with
      | Some d => digitpart (acc * 10 + d) (S n) rest
      | None =>
          match n, rest with
          | S _, c' :: _ =>
              if is_char c 95 && bool_decide (is_Some (digit c'))
              then digitpart acc n rest
              else (acc, n, l)
          | _, _ => (acc, n, l)
          end
      end
  | [] => (acc, n, l)
  end.

(** [m * 10 ^ e] as a rational. *)
Definition scale (m e : Z) : Q :=
  if 0 <=? e then inject_Z (m * 10 ^ e) else m # Z.to_pos (10 ^ (- e)).

Definition take_sign (l : list ascii) : bool * list ascii :=
  match l with
  | c :: rest =>
      if is_char c 45 then (true, rest)
      else if is_char c 43 then (false, rest)
      else (false, l)
  | [] => (false, l)
  end.

Definition exponent (l : list ascii) : option Z :=
  match l with
  | [] => Some 0
  | c :: rest =>
      if is_char (lower c) 101 then
        let '(neg, rest') := take_sign rest in
        match digitpart 0 0 rest' with
        | (e, S _, []) => Some (if neg then - e else e)
        | _ => None
        end
      else None
  end.

(** [number [exponent]] of the grammar of float literals. *)
Definition floatnumber (l : list ascii) : option Q :=
  let '(m1, n1, r1) := digitpart 0 0 l in
  let '(m, n2, r) :=
    match r1 with
    | c :: r2 => if is_char c 46 then digitpart m1 0 r2 else (m1, O, r1)
    | [] => (m1, O, r1)
    end in
  match (n1 + n2)%nat with
  | O => None
  | S _ => e ← exponent r; Some (scale m (e - Z.of_nat n2))
  end.

Definition negate (f : pyfloat) : pyfloat :=
  match f with
  | Finite q => Finite (- q)
  | Infinity b => Infinity (negb b)
  | NaN => NaN
  end.

Definition keyword (l : list ascii) : string :=
  string_of_list_ascii (map lower l).

(** [float(s)] for a string: surrounding white space is dropped, then an
    optional sign and a literal, [inf], [infinity] or [nan] follow. *)
Definition of_string (s : string) : option pyfloat :=
  let '(neg, body) := take_sign (strip (list_ascii_of_string s)) in
  let sign := if neg then negate else (fun f => f) in
  if String.eqb (keyword body) "inf" || String.eqb (keyword body) "infinity"
  then Some (sign (Infinity false))
  else if String.eqb (keyword body) "nan" then Some (sign NaN)
  else q ← floatnumber body; Some (sign (Finite q)).

(** The least magnitude of an integer that [float] refuses to convert. *)
Definition int_too_large : Z := 2 ^ 1024 - 2 ^ 970.

End PyFloat.

(** [float(v)] *)
Definition float_ (v : json) : result pyfloat :=
  match v with
  | JInt z =>
      if PyFloat.int_too_large <=? Z.abs z then Raise OverflowError
      else Ok (Finite (inject_Z z))
  | JFloat f => Ok f
  | JBool b => Ok (Finite (if b then 1 else 0)%Q)
  | JStr s =>
      match PyFloat.of_string s with
      | Some f => Ok f
      | None => Raise ValueError
      end
  | JNull | JArr _ | JObj _ => Raise TypeError
  end.

(** [f / 1000] on floats; the divisor is finite, positive and not zero. *)
Definition div1000 (f : pyfloat) : pyfloat :=
  match f with
  | Finite q => Finite (q / 1000)
  | Infinity b => Infinity b
  | NaN => NaN
  end.

(** [int(f)]: truncation toward zero; an infinity is an [OverflowError] and
    NaN a [ValueError]. *)
Definition int_ (f : pyfloat) : result Z :=
  match f with
  | Finite q => Ok (Z.quot (Qnum q) (Zpos (Qden q)))
  | Infinity _ => Raise OverflowError
  | NaN => Raise ValueError
  end.

(** ** [sats_per_kb_to_sats_per_byte] *)

Definition sats_per_kb_to_sats_per_byte (sats_per_kb : json) : result Z :=
  f ← float_ sats_per_kb;
  int_ (div1000 f).

(** ** The data loader *)

(** A fee estimate as [read_fees] builds it. *)
Record estimate : Set := Estimate {
  conf_target : Z;
  block_height : Z;
  conservative_fee_rate : Z;
  economic_fee_rate : Z
}.

(** A block as [read_blocks] builds it. *)
Record block_stat : Set := BlockStat {
  conf_height : Z;
  p_5 : Z;
  p_50 : Z
}.

(** [int(float(v[key]))] *)
Definition int_field (v : json) (key : string) : result Z :=
  x ← subscript v key;
  f ← float_ x;
  int_ f.

(** [sats_per_kb_to_sats_per_byte(v[key])] *)
Definition rate_field (v : json) (key : string) : result Z :=
  x ← subscript v key;
  sats_per_kb_to_sats_per_byte x.

(** The element expression of the comprehension in [read_fees]; the four
    entries are evaluated in the order in which they are written. *)
Definition fee_record (est : json) : result estimate :=
  ct ← int_field est "conf_target";
  bh ← int_field est "block_height";
  cfr ← rate_field est "conservative_fee_rate";
  efr ← rate_field est "economic_fee_rate";
  Ok (Estimate ct bh cfr efr).

Definition read_fees (estimates_dict : json) : result (list estimate) :=
  records ← iterate estimates_dict;
  comprehension fee_record records.

(** The body of the [try] in [read_blocks]: the height and the filtered
    block. *)
Definition block_record (block : json) : result (Z * block_stat) :=
  height ← int_field block "block_height";
  ch ← int_field block "block_height";
  p5 ← rate_field block "p_5";
  p50 ← rate_field block "p_50";
  Ok (height, BlockStat ch p5 p50).

(** [except (ValueError, KeyError)] *)
Definition block_handler (e : exn) : bool :=
  match e with
  | ValueError | KeyError => true
  | _ => false
  end.

(** The loop of [read_blocks].  The second component is what has been
    printed: one diagnostic for every exception caught. *)
Fixpoint read_blocks_loop (records : list json)
    (filtered_blocks : gmap Z block_stat) (log : list exn)
  : result (gmap Z block_stat) * list exn :=
  match records with
  | [] => (Ok filtered_blocks, log)
  | block :: rest =>
      match block_record block with
      | Ok (height, filtered_block) =>
          read_blocks_loop rest (<[height := filtered_block]> filtered_blocks) log
      | Raise e =>
          if block_handler e
          then read_blocks_loop rest filtered_blocks (log ++ [e])
          else (Raise e, log)
      end
  end.

Definition read_blocks (blocks_dict : json)
  : result (gmap Z block_stat) * list exn :=
  match iterate blocks_dict with
  | Ok records => read_blocks_loop records ∅ []
  | Raise e => (Raise e, [])
  end.

(** What [read_and_process_file] returns: the processed data, or the
    literal empty list of its handler. *)
Inductive loaded (A : Type) : Type :=
  | Processed (data : A)
  | EmptyList.
Arguments Processed {A} data.
Arguments EmptyList {A}.

(** [except (IOError, ValueError)] *)
Definition file_handler (e : exn) : bool :=
  match e with
  | OSError | ValueError => true
  | _ => false
  end.

(** [read_and_process_file].  [file] is the outcome of opening the file
    and of [json.load]: the parsed content, [OSError] when the file cannot
    be read, [ValueError] when its content is not JSON.  The read function
    returns its result together with what it printed. *)
Definition read_and_process_file {A : Type} (file : result json)
    (read_function : json -> result A * list exn)
  : result (loaded A) * list exn :=
  match file with
  | Ok data =>
      match read_function data with
      | (Ok a, log) => (Ok (Processed a), log)
      | (Raise e, log) =>
          if file_handler e then (Ok EmptyList, log ++ [e]) else (Raise e, log)
      end
  | Raise e =>
      if file_handler e then (Ok EmptyList, [e]) else (Raise e, [])
  end.

(** [read_fees] prints nothing. *)
Definition read_fees_quiet (data : json) : result (list estimate) * list exn :=
  (read_fees data, []).

(** [read_data_from_file].  A path that is [None] or empty is [None] here;
    otherwise the argument is the outcome of reading that file.  The fees
    are read first, and an exception that escapes ends the call. *)
Definition read_data_from_file (fees_file blocks_file : option (result json))
  : result (loaded (list estimate) * loaded (gmap Z block_stat)) * list exn :=
  let '(fees_data, log1) :=
    match fees_file with
    | Some file => read_and_process_file file read_fees_quiet
    | None => (Ok EmptyList, [])
    end in
  match fees_data with
  | Raise e => (Raise e, log1)
  | Ok fees =>
      let '(blocks_data, log2) :=
        match blocks_file with
        | Some file => read_and_process_file file read_blocks
        | None => (Ok EmptyList, [])
        end in
      match blocks_data with
      | Raise e => (Raise e, log1 ++ log2)
      | Ok blocks => (Ok (fees, blocks), log1 ++ log2)
      end
  end.

(** ** [sanity_check_data] *)

(** The condition of the [while] loop:
    [len(estimates) > 0 and minimum < estimates[-1]["block_height"]]. *)
Definition sanity_guard (minimum : Z) (estimates : list estimate) : bool :=
  match last estimates with
  | Some e => minimum <? block_height e
  | None => false
  end.

(** The [while] loop: as long as the condition holds the last element is
    popped.  [fuel] bounds the number of iterations. *)
Fixpoint sanity_loop (fuel : nat) (minimum : Z) (estimates : list estimate)
  : list estimate :=
  match fuel with
  | O => estimates
  | S fuel' =>
      if sanity_guard minimum estimates
      then sanity_loop fuel' minimum (removelast estimates)
      else estimates
  end.

(** One unit of fuel for every element is enough: each iteration pops one. *)
Definition sanity_check_data (estimates : list estimate)
    (maximum_block_height : Z) : list estimate :=
  let minimum := maximum_block_height - 1008 in
  sanity_loop (length estimates) minimum estimates.

(** ** [calculate_percentages] *)

(** The three flags [res[0]], [res[1]], [res[2]] kept for one estimate and
    one mode: "underpaid", "overpaid", "within the range". *)
Record res : Set := Res {
  res_underpaid : bool;
  res_overpaid : bool;
  res_within : bool
}.

Definition no_flag : res := Res false false false.

(** One entry of a result dictionary.  The three percentages are the keys
    that [calculate_percentage] adds; they are absent before. *)
Record bucket : Type := Bucket {
  underpaid : Z;
  overpaid : Z;
  within_the_range : Z;
  underpaid_perc : option Q;
  overpaid_perc : option Q;
  within_the_range_perc : option Q
}.

Definition initialize_results : bucket := Bucket 0 0 0 None None None.

Definition incr_underpaid (b : bucket) : bucket :=
  Bucket (underpaid b + 1) (overpaid b) (within_the_range b)
         (underpaid_perc b) (overpaid_perc b) (within_the_range_perc b).
Definition incr_overpaid (b : bucket) : bucket :=
  Bucket (underpaid b) (overpaid b + 1) (within_the_range b)
         (underpaid_perc b) (overpaid_perc b) (within_the_range_perc b).
Definition incr_within (b : bucket) : bucket :=
  Bucket (underpaid b) (overpaid b) (within_the_range b + 1)
         (underpaid_perc b) (overpaid_perc b) (within_the_range_perc b).

Definition update_results (r : res) (target : Z) (result_dict : gmap Z bucket)
  : result (gmap Z bucket) :=
  match result_dict !! target with
  | None => Raise KeyError
  | Some b =>
      if res_overpaid r then Ok (<[target := incr_overpaid b]> result_dict)
      else if res_within r then Ok (<[target := incr_within b]> result_dict)
      else Ok (<[target := incr_underpaid b]> result_dict)
  end.

(** The two tests made on a block that is present, for one fee rate. *)
Definition visit (fee_rate : Z) (block : block_stat) (r : res) : res :=
  let r :=
    if fee_rate <? p_5 block
    then Res true (res_overpaid r) (res_within r) else r in
  if fee_rate >? p_50 block
  then Res (res_underpaid r) true (res_within r)
  else Res (res_underpaid r) (res_overpaid r) true.

(** The inner [while curr_height < max_height] loop; it returns the state
    in which it stops. *)
Fixpoint scan_loop (fuel : nat) (est : estimate) (blocks : gmap Z block_stat)
    (max_height curr_height : Z) (cons_res econs_res : res)
  : Z * res * res :=
  match fuel with
  | O => (curr_height, cons_res, econs_res)
  | S fuel' =>
      if curr_height <? max_height then
        match blocks !! curr_height with
        | None =>
            scan_loop fuel' est blocks max_height (curr_height + 1)
              cons_res econs_res
        | Some block =>
            scan_loop fuel' est blocks max_height (curr_height + 1)
              (visit (conservative_fee_rate est) block cons_res)
              (visit (economic_fee_rate est) block econs_res)
        end
      else (curr_height, cons_res, econs_res)
  end.

(** The scan of one estimate, from [block_height + 1] up to
    [block_height + conf_target]. *)
Definition scan (est : estimate) (blocks : gmap Z block_stat) : Z * res * res :=
  let curr_height := block_height est in
  let max_height := curr_height + conf_target est in
  let curr_height := curr_height + 1 in
  scan_loop (Z.to_nat (max_height - curr_height)) est blocks
    max_height curr_height no_flag no_flag.

(** [if conf_target not in result: result[conf_target] = initialize_results()] *)
Definition ensure_bucket (target : Z) (result_dict : gmap Z bucket)
  : gmap Z bucket :=
  match result_dict !! target with
  | None => <[target := initialize_results]> result_dict
  | Some _ => result_dict
  end.

(** The body of [for estimate in estimates]. *)
Definition process_estimate (blocks : gmap Z block_stat)
    (results : gmap Z bucket * gmap Z bucket) (est : estimate)
  : result (gmap Z bucket * gmap Z bucket) :=
  let '(cons_result, econs_result) := results in
  let cons_result := ensure_bucket (conf_target est) cons_result in
  let econs_result := ensure_bucket (conf_target est) econs_result in
  let '(_, cons_res, econs_res) := scan est blocks in
  cons_result ← update_results cons_res (conf_target est) cons_result;
  econs_result ← update_results econs_res (conf_target est) econs_result;
  Ok (cons_result, econs_result).

Fixpoint estimates_loop (blocks : gmap Z block_stat)
    (results : gmap Z bucket * gmap Z bucket) (estimates : list estimate)
  : result (gmap Z bucket * gmap Z bucket) :=
  match estimates with
  | [] => Ok results
  | est :: rest =>
      results' ← process_estimate blocks results est;
      estimates_loop blocks results' rest
  end.

(** [(count / total) * 100]; dividing by a zero [total] raises. *)
Definition percentage (count : Z) (total : Q) : result Q :=
  if Qeq_bool total 0 then Raise ZeroDivisionError
  else Ok ((inject_Z count / total) * 100)%Q.

(** The inner [for key in ...] loop on one bucket. *)
Definition bucket_percentages (total : Q) (b : bucket) : result bucket :=
  u ← percentage (underpaid b) total;
  o ← percentage (overpaid b) total;
  w ← percentage (within_the_range b) total;
  Ok (Bucket (underpaid b) (overpaid b) (within_the_range b)
             (Some u) (Some o) (Some w)).

(** [calculate_percentage]: every bucket of [results] is updated in place. *)
Definition calculate_percentage (total : Q) (results : gmap Z bucket)
  : result (gmap Z bucket) :=
  map_fold
    (fun target b acc =>
       results' ← acc;
       b' ← bucket_percentages total b;
       Ok (<[target := b']> results'))
    (Ok results) results.

Definition calculate_percentages (estimates : list estimate)
    (blocks : gmap Z block_stat)
  : result (gmap Z bucket * gmap Z bucket) :=
  '(cons_result, econs_result) ← estimates_loop blocks (∅, ∅) estimates;
  let total := (inject_Z (Z.of_nat (length estimates)) / 12)%Q in
  cons_result ← calculate_percentage total cons_result;
  econs_result ← calculate_percentage total econs_result;
  Ok (cons_result, econs_result).

(** ** [print_summary] *)

(** A line written by [print], kept by its parts: the line of totals, the
    rule of dashes, the line of a confirmation target, and the line of a
    category with its count, its percentage and the mode.  The percentage
    is the value that the line shows with two decimals. *)
Inductive line : Type :=
  | TotalLine (total start_block end_block : Z)
  | RuleLine
  | TargetLine (target : Z)
  | CategoryLine (count : Z) (category : string) (percentage : Q)
      (mode : string).

(** [result[category]] *)
Definition bucket_count (b : bucket) (category : string) : result Z :=
  if String.eqb category "underpaid" then Ok (underpaid b)
  else if String.eqb category "overpaid" then Ok (overpaid b)
  else if String.eqb category "within the range" then Ok (within_the_range b)
  else Raise KeyError.

(** [result[f"{category} perc"]]; the key is there once
    [calculate_percentage] has set it. *)
Definition bucket_perc (b : bucket) (category : string) : result Q :=
  let entry :=
    if String.eqb category "underpaid" then underpaid_perc b
    else if String.eqb category "overpaid" then overpaid_perc b
    else if String.eqb category "within the range"
         then within_the_range_perc b
    else None in
  match entry with
  | Some percentage => Ok percentage
  | None => Raise KeyError
  end.

Definition categories : list string :=
  ["underpaid"; "overpaid"; "within the range"]%string.

(** The inner loop of [print_summary]: the lines written and the exception
    that ended the loop, if any. *)
Fixpoint print_categories (b : bucket) (mode : string)
    (keys : list string) : list line * option exn :=
  match keys with
  | [] => ([], None)
  | category :: rest =>
      match bucket_count b category with
      | Raise e => ([], Some e)
      | Ok count =>
          match bucket_perc b category with
          | Raise e => ([], Some e)
          | Ok percentage =>
              let '(lines, status) := print_categories b mode rest in
              (CategoryLine count category percentage mode :: lines, status)
          end
      end
  end.

(** [print_summary], given the items of the dictionary in its order. *)
Fixpoint print_summary (items : list (Z * bucket)) (mode : string)
  : list line * option exn :=
  match items with
  | [] => ([], None)
  | (target, b) :: rest =>
      match print_categories b mode categories with
      | (lines, Some e) => (TargetLine target :: lines, Some e)
      | (lines, None) =>
          let '(lines', status) := print_summary rest mode in
          (TargetLine target :: lines ++ RuleLine :: lines', status)
      end
  end.

(** ** [get_summary] *)

(** A dictionary lists its items in the order in which its keys were first
    assigned.  A result dictionary of [calculate_percentages] gets a new
    key only where a bucket is initialised, once for each estimate whose
    [conf_target] is not yet a key; [insertion_order] follows these
    assignments. *)
Fixpoint insertion_order (estimates : list estimate) (keys : list Z)
  : list Z :=
  match estimates with
  | [] => keys
  | est :: rest =>
      insertion_order rest
        (if bool_decide (conf_target est ∈ keys) then keys
         else keys ++ [conf_target est])
  end.

(** [results.items()] for a dictionary with the given order of keys. *)
Definition items (keys : list Z) (results : gmap Z bucket)
  : list (Z * bucket) :=
  omap (fun t => pair t <$> results !! t) keys.

(** [max(list(block_data.keys()))]; [None] stands for the [ValueError] of
    [max] on an empty list. *)
Definition max_key (block_data : gmap Z block_stat) : option Z :=
  map_fold
    (fun k _ acc => Some (match acc with Some m => Z.max m k | None => k end))
    None block_data.

(** The exceptions of [get_summary]: those of the functions it calls, the
    [AttributeError] of [keys] on a list and the [IndexError] of an index
    into an empty list. *)
Inductive summary_exn : Set :=
  | Builtin (e : exn)
  | AttributeError
  | IndexError.

(** [get_summary], on the pair that [read_data_from_file] returns: the
    lines written and the exception that ended the call, if any. *)
Definition get_summary
    (data : loaded (list estimate) * loaded (gmap Z block_stat))
  : list line * option summary_exn :=
  let estimates_data :=
    match data.1 with
    | Processed estimates => estimates
    | EmptyList => []
    end in
  match data.2 with
  | EmptyList => ([], Some AttributeError)
  | Processed block_data =>
      match max_key block_data with
      | None => ([], Some (Builtin ValueError))
      | Some maximum_block_height =>
          let estimates_data :=
            sanity_check_data estimates_data maximum_block_height in
          let total := Z.of_nat (length estimates_data) in
          match head estimates_data, last estimates_data with
          | Some first, Some final =>
              let header :=
                [ TotalLine total (block_height first - 1)
                    (block_height final - 1);
                  RuleLine ] in
              match calculate_percentages estimates_data block_data with
              | Raise e => (header, Some (Builtin e))
              | Ok (cons_result, econs_result) =>
                  let keys := insertion_order estimates_data [] in
                  match print_summary (items keys cons_result)
                          "conservative" with
                  | (lines1, Some e) => (header ++ lines1, Some (Builtin e))
                  | (lines1, None) =>
                      let '(lines2, status) :=
                        print_summary (items keys econs_result) "economic" in
                      (header ++ lines1 ++ lines2, Builtin <$> status)
                  end
              end
          | _, _ => ([], Some IndexError)
          end
      end
  end.

(** ** [main.py] *)

(** The script: both file names are given, so both files are read, the
    fees first; [get_summary] is called on what was loaded.  The arguments
    are the outcomes of opening and parsing the two files; the result is
    the diagnostics of the loader, the lines of the report and the
    exception that ended the run, if any. *)
Definition main (fees_file blocks_file : result json)
  : list exn * list line * option summary_exn :=
  match read_data_from_file (Some fees_file) (Some blocks_file) with
  | (Raise e, log) => (log, [], Some (Builtin e))
  | (Ok data, log) =>
      let '(lines, status) := get_summary data in (log, lines, status)
  end.

(** * Vocabulary of the statements and example inputs *)

(** A fees file of two records, the second without ["block_height"]. *)
Definition fees_without_block_height : json :=
  JArr [ JObj [ ("conf_target"%string, JInt 2);
                ("block_height"%string, JInt 100);
                ("conservative_fee_rate"%string, JInt 10000);
                ("economic_fee_rate"%string, JInt 8000) ];
         JObj [ ("conf_target"%string, JInt 2);
                ("conservative_fee_rate"%string, JInt 10000);
                ("economic_fee_rate"%string, JInt 8000) ] ].

(** The records of a blocks source that convert, with their heights, in
    the order of the source. *)
Definition valid_blocks (records : list json) : list (Z * block_stat) :=
  omap (fun r => match block_record r with
                 | Ok p => Some p
                 | Raise _ => None
                 end) records.

(** The exceptions raised by the records that do not convert. *)
Definition diagnostics (records : list json) : list exn :=
  omap (fun r => match block_record r with
                 | Ok _ => None
                 | Raise e => Some e
                 end) records.

(** A record that converts, or that fails with a missing key or with a
    value that [float] or [int] rejects by a [ValueError]. *)
Definition recoverable (r : json) : Prop :=
  match block_record r with
  | Ok _ => True
  | Raise e => e = KeyError \/ e = ValueError
  end.

(** A blocks source of three records; the second has [null] for ["p_5"]. *)
Definition blocks_with_null : json :=
  JArr [ JObj [ ("block_height"%string, JInt 101);
                ("p_5"%string, JInt 5000); ("p_50"%string, JInt 20000) ];
         JObj [ ("block_height"%string, JInt 102);
                ("p_5"%string, JNull); ("p_50"%string, JInt 20000) ];
         JObj [ ("block_height"%string, JInt 103);
                ("p_5"%string, JInt 7000); ("p_50"%string, JInt 9000) ] ].

(** Three records: the first lacks ["p_50"], the other two convert. *)
Definition blocks_with_missing_field : list json :=
  [ JObj [ ("block_height"%string, JInt 101); ("p_5"%string, JInt 5000) ];
    JObj [ ("block_height"%string, JStr "102");
           ("p_5"%string, JInt 12000); ("p_50"%string, JInt 20000) ];
    JObj [ ("block_height"%string, JInt 103);
           ("p_5"%string, JInt 7000); ("p_50"%string, JInt 9000) ] ].

(** The estimates are in the order of their block heights. *)
Definition by_height (a b : estimate) : Prop :=
  block_height a <= block_height b.

(** Four estimates at heights 990, 992, 993 and 1000. *)
Definition four_estimates : list estimate :=
  [ Estimate 2 990 10 8; Estimate 6 992 10 8;
    Estimate 2 993 10 8; Estimate 144 1000 10 8 ].

(** The blocks that the scan of an estimate meets: those present in the
    mapping at the heights from [block_height + 1] up to, and without,
    [block_height + conf_target], by increasing height. *)
Definition window (est : estimate) (blocks : gmap Z block_stat)
  : list block_stat :=
  omap (fun h => blocks !! h)
       (seqZ (block_height est + 1) (conf_target est - 1)).

(** The flags after the tests of [visit] for every block of a list. *)
Definition visit_all (fee_rate : Z) (found : list block_stat) (r : res) : res :=
  foldl (fun r block => visit fee_rate block r) r found.

(** The bucket of [target] before an estimate is counted: the one that is
    there, or the all-zero one that is created on first use. *)
Definition bucket_before (target : Z) (result_dict : gmap Z bucket) : bucket :=
  default initialize_results (result_dict !! target).

(** [after] is [before] with the estimate of flags [r] counted once for
    [target]: one counter of that bucket is one higher, chosen by the
    priority overpaid, within the range, underpaid, and nothing else
    differs. *)
Definition counted_once (r : res) (target : Z)
    (before after : gmap Z bucket) : Prop :=
  let b := bucket_before target before in
  (forall t, t ≠ target -> after !! t = before !! t) /\
  exists b', after !! target = Some b' /\
    underpaid_perc b' = underpaid_perc b /\
    overpaid_perc b' = overpaid_perc b /\
    within_the_range_perc b' = within_the_range_perc b /\
    if res_overpaid r then
      overpaid b' = overpaid b + 1 /\
      within_the_range b' = within_the_range b /\ underpaid b' = underpaid b
    else if res_within r then
      overpaid b' = overpaid b /\
      within_the_range b' = within_the_range b + 1 /\ underpaid b' = underpaid b
    else
      overpaid b' = overpaid b /\
      within_the_range b' = within_the_range b /\ underpaid b' = underpaid b + 1.

(** The number of estimates counted in an entry of a result dictionary;
    an absent entry counts none. *)
Definition bucket_total (entry : option bucket) : Z :=
  match entry with
  | Some b => underpaid b + overpaid b + within_the_range b
  | None => 0
  end.

(** The number of estimates of a list that have a given [conf_target]. *)
Definition count_target (target : Z) (estimates : list estimate) : Z :=
  Z.of_nat (length (filter (fun e => conf_target e = target) estimates)).

(** The bucket with the three percentage keys set for a given total. *)
Definition with_percentages (total : Q) (b : bucket) : bucket :=
  Bucket (underpaid b) (overpaid b) (within_the_range b)
         (Some (inject_Z (underpaid b) / total * 100)%Q)
         (Some (inject_Z (overpaid b) / total * 100)%Q)
         (Some (inject_Z (within_the_range b) / total * 100)%Q).

(** Height [h] lies in the scan window of [est] and [block] is the entry of
    the mapping at that height. *)
Definition in_window (est : estimate) (blocks : gmap Z block_stat)
    (h : Z) (block : block_stat) : Prop :=
  block_height est + 1 <= h < block_height est + conf_target est /\
  blocks !! h = Some block.

(** The flags [r] are those that the blocks present in the window give to
    [fee_rate]. *)
Definition flags_of_window (fee_rate : Z) (est : estimate)
    (blocks : gmap Z block_stat) (r : res) : Prop :=
  (res_underpaid r = true <->
   exists h block, in_window est blocks h block /\ fee_rate < p_5 block) /\
  (res_overpaid r = true <->
   exists h block, in_window est blocks h block /\ fee_rate > p_50 block) /\
  (res_within r = true <->
   exists h block, in_window est blocks h block /\ fee_rate <= p_50 block).

(** The blocks of the example: height 101 with [p_5 = 5], [p_50 = 20] and
    height 102 with [p_5 = 12], [p_50 = 20]. *)
Definition example_blocks : gmap Z block_stat :=
  <[101 := BlockStat 101 5 20]> (<[102 := BlockStat 102 12 20]> ∅).

(** The estimate of the example; its economic fee rate is left open. *)
Definition example_estimate (economic : Z) : estimate :=
  Estimate 2 100 10 economic.

(** Twelve estimates: six of [conf_target] 1 and six of [conf_target] 3. *)
Definition twelve_estimates : list estimate :=
  replicate 6 (Estimate 1 100 10 8) ++ replicate 6 (Estimate 3 100 10 8).

(** The outcome of opening a file and of [json.load]: the content, or one
    of the two exceptions that these calls raise for a file that cannot be
    read or that is not JSON. *)
Definition file_outcome (file : result json) : Prop :=
  match file with
  | Ok _ => True
  | Raise e => e = OSError \/ e = ValueError
  end.

(** The exceptions that the conversion of a record can raise. *)
Definition conversion_error (e : exn) : Prop :=
  e = KeyError \/ e = TypeError \/ e = ValueError \/ e = OverflowError.

(** Two blocks mappings have the same heights and, at each height, the
    same [p_50]. *)
Definition same_medians (blocks1 blocks2 : gmap Z block_stat) : Prop :=
  forall h, p_50 <$> (blocks1 !! h) = p_50 <$> (blocks2 !! h).

(** How the bucket of an estimate changes with the blocks present in its
    window, for the fee rate of one mode: the overpaid counter goes up
    exactly when the fee rate is above the [p_50] of some block of the
    window, the within-the-range counter exactly when the window has a
    block and the fee rate is above the [p_50] of none. *)
Definition judged (fee_rate : Z) (est : estimate) (blocks : gmap Z block_stat)
    (before after : gmap Z bucket) : Prop :=
  exists b', after !! conf_target est = Some b' /\
    (overpaid b' = overpaid (bucket_before (conf_target est) before) + 1 <->
     exists h block, in_window est blocks h block /\ fee_rate > p_50 block) /\
    (within_the_range b'
     = within_the_range (bucket_before (conf_target est) before) + 1 <->
     (exists h block, in_window est blocks h block) /\
     (forall h block, in_window est blocks h block -> fee_rate <= p_50 block)).

(** A bucket that has its three percentages. *)
Definition complete (b : bucket) : Prop :=
  is_Some (underpaid_perc b) /\ is_Some (overpaid_perc b) /\
  is_Some (within_the_range_perc b).

(** The confirmation targets of the target lines of a report, in order. *)
Definition targets_of (lines : list line) : list Z :=
  omap (fun l => match l with TargetLine t => Some t | _ => None end) lines.

(** The estimates that [get_summary] judges: those left by the trimming
    for the greatest height of the blocks. *)
Definition judged_estimates
    (data : loaded (list estimate) * loaded (gmap Z block_stat))
  : list estimate :=
  match data with
  | (Processed estimates, Processed block_data) =>
      match max_key block_data with
      | Some maximum => sanity_check_data estimates maximum
      | None => []
      end
  | _ => []
  end.

(** Blocks at the heights 991 and 2000. *)
Definition blocks_to_2000 : gmap Z block_stat :=
  <[991 := BlockStat 991 5 9]> (<[2000 := BlockStat 2000 5 20]> ∅).

(** * Properties *)

(** ** The unit converter *)

Section Conversion.

Lemma quot_floor (x : Q) :
  0 <= Qnum x -> Z.quot (Qnum x) (Zpos (Qden x)) = Qfloor x.
Proof.
  destruct x as [n d]; simpl; intros Hn.
  apply Z.quot_div_nonneg; lia.
Qed.

Lemma quot_ceiling (x : Q) :
  Qnum x <= 0 -> Z.quot (Qnum x) (Zpos (Qden x)) = Qceiling x.
Proof.
  destruct x as [n d]; unfold Qceiling; simpl; intros Hn.
  replace n with (- - n) at 1 by lia.
  rewrite Z.quot_opp_l by lia.
  f_equal. apply Z.quot_div_nonneg; lia.
Qed.


Lemma Qnum_div12 (q : Q) : Qnum (q / 12) = Qnum q.
Proof. destruct q as [n d]; simpl. lia. Qed.



(** On a finite value the converter returns the integer part of the
    quotient. *)
Lemma conversion_finite (v : json) (q : Q) :
  float_ v = Ok (Finite q) ->
  sats_per_kb_to_sats_per_byte v
  = Ok (Z.quot (Qnum (q / 1000)) (Zpos (Qden (q / 1000)))).
Proof. intros Hv. unfold sats_per_kb_to_sats_per_byte. by rewrite Hv. Qed.

End Conversion.




(** ** The data loader *)

Section Loader.

(** An exception of the read function that the handler of
    [read_and_process_file] does not list leaves the function. *)
Lemma read_and_process_file_escapes {A : Type} (data : json)
    (read_function : json -> result A * list exn) (e : exn) (log : list exn) :
  read_function data = (Raise e, log) ->
  file_handler e = false ->
  read_and_process_file (Ok data) read_function = (Raise e, log).
Proof. intros Hr He. unfold read_and_process_file. by rewrite Hr, He. Qed.

(** An exception that it lists is printed and turned into the empty list. *)
Lemma read_and_process_file_caught {A : Type} (data : json)
    (read_function : json -> result A * list exn) (e : exn) (log : list exn) :
  read_function data = (Raise e, log) ->
  file_handler e = true ->
  read_and_process_file (Ok data) read_function = (Ok EmptyList, log ++ [e]).
Proof. intros Hr He. unfold read_and_process_file. by rewrite Hr, He. Qed.

Lemma comprehension_app_raise {A B : Type} (f : A -> result B)
    (before after : list A) (x : A) (ys : list B) (e : exn) :
  comprehension f before = Ok ys ->
  f x = Raise e ->
  comprehension f (before ++ x :: after) = Raise e.
Proof.
  revert ys. induction before as [|a before IH]; intros ys Hb Hx; simpl.
  - by rewrite Hx.
  - simpl in Hb. destruct (f a) as [b|e']; simpl in *; [|discriminate].
    destruct (comprehension f before) as [bs|e'] eqn:Hbs; simpl in *;
      [|discriminate].
    by rewrite (IH bs).
Qed.

(** A record without the key ["block_height"] whose ["conf_target"]
    converts raises [KeyError]. *)
Lemma fee_record_missing_block_height (fields : list (string * json)) (ct : Z) :
  int_field (JObj fields) "conf_target" = Ok ct ->
  assoc "block_height" fields = None ->
  fee_record (JObj fields) = Raise KeyError.
Proof.
  intros Hct Hbh. unfold fee_record. rewrite Hct. simpl.
  unfold int_field at 1. simpl. by rewrite Hbh.
Qed.

End Loader.

(** C6, on the code: a fees file in which one record lacks ["block_height"]
    (the records before it being well formed) does not load as an empty
    collection; the [KeyError] is not among the exceptions that
    [read_and_process_file] handles, nothing is printed, and the exception
    leaves [read_data_from_file] before the blocks file is read. *)
Theorem fees_missing_key_not_recovered
    (before after : list json) (fields : list (string * json))
    (ests : list estimate) (ct : Z) (blocks_file : option (result json)) :
  comprehension fee_record before = Ok ests ->
  int_field (JObj fields) "conf_target" = Ok ct ->
  assoc "block_height" fields = None ->
  read_and_process_file (Ok (JArr (before ++ JObj fields :: after)))
    read_fees_quiet = (Raise KeyError, []) /\
  read_data_from_file (Some (Ok (JArr (before ++ JObj fields :: after))))
    blocks_file = (Raise KeyError, []).
Proof.
  intros Hbefore Hct Hbh.
  assert (read_and_process_file (Ok (JArr (before ++ JObj fields :: after)))
            read_fees_quiet = (Raise KeyError, [])) as Hfile.
  { apply read_and_process_file_escapes; [|reflexivity].
    unfold read_fees_quiet, read_fees. simpl.
    by rewrite (comprehension_app_raise fee_record before after (JObj fields)
                  ests KeyError Hbefore
                  (fee_record_missing_block_height fields ct Hct Hbh)). }
  split; [exact Hfile|].
  unfold read_data_from_file. by rewrite Hfile.
Qed.

Lemma fees_missing_key_not_recovered_witness :
  read_and_process_file (Ok fees_without_block_height) read_fees_quiet
  = (Raise KeyError, []) /\
  read_data_from_file (Some (Ok fees_without_block_height)) (Some (Ok (JArr [])))
  = (Raise KeyError, []).
Proof.
  apply (fees_missing_key_not_recovered
           [ JObj [ ("conf_target"%string, JInt 2);
                    ("block_height"%string, JInt 100);
                    ("conservative_fee_rate"%string, JInt 10000);
                    ("economic_fee_rate"%string, JInt 8000) ] ]
           []
           [ ("conf_target"%string, JInt 2);
             ("conservative_fee_rate"%string, JInt 10000);
             ("economic_fee_rate"%string, JInt 8000) ]
           [Estimate 2 100 10 8] 2 (Some (Ok (JArr []))));
    vm_compute; reflexivity.
Defined.

(** The sibling case that the handler does cover: a record whose
    ["block_height"] is a string that is not a number raises [ValueError],
    which is printed, and the load gives the empty list. *)
Example fees_bad_number_recovered :
  read_and_process_file
    (Ok (JArr [ JObj [ ("conf_target"%string, JInt 2);
                       ("block_height"%string, JStr "n/a");
                       ("conservative_fee_rate"%string, JInt 10000);
                       ("economic_fee_rate"%string, JInt 8000) ] ]))
    read_fees_quiet
  = (Ok EmptyList, [ValueError]).
Proof. vm_compute. reflexivity. Qed.

Section Blocks.

Lemma read_blocks_loop_spec (records : list json)
    (acc : list (Z * block_stat)) (log : list exn) :
  Forall recoverable records ->
  read_blocks_loop records (list_to_map (reverse acc)) log
  = (Ok (list_to_map (reverse (acc ++ valid_blocks records))),
     log ++ diagnostics records).
Proof.
  intros Hrec. revert acc log.
  induction Hrec as [|r records Hr _ IH]; intros acc log.
  - unfold valid_blocks, diagnostics. simpl. by rewrite !app_nil_r.
  - unfold valid_blocks, diagnostics, recoverable in *. simpl.
    destruct (block_record r) as [[height fb]|e]; simpl.
    + replace (<[height:=fb]> (list_to_map (reverse acc)) : gmap Z block_stat)
        with (list_to_map (reverse (acc ++ [(height, fb)])) : gmap Z block_stat)
        by (by rewrite reverse_snoc).
      rewrite IH. by rewrite <- app_assoc.
    + assert (block_handler e = true) as -> by (by destruct Hr as [-> | ->]).
      rewrite IH. by rewrite <- app_assoc.
Qed.


End Blocks.




(** The same source, evaluated: two entries and one diagnostic. *)
Example read_blocks_missing_field :
  read_blocks (JArr blocks_with_missing_field)
  = (Ok (<[103 := BlockStat 103 7 9]> (<[102 := BlockStat 102 12 20]> ∅)),
     [KeyError]).
Proof. vm_compute. reflexivity. Qed.

(** ** The range trimmer *)

Section Trimmer.

#[local] Instance by_height_trans : Transitive by_height.
Proof. unfold by_height. intros a b c. lia. Qed.

(** The loop removes a suffix of which every element is above [minimum]
    and, given fuel for every element, stops where its guard is false. *)
Lemma sanity_loop_spec (fuel : nat) (minimum : Z) (estimates : list estimate) :
  (length estimates <= fuel)%nat ->
  exists removed,
    estimates = sanity_loop fuel minimum estimates ++ removed /\
    Forall (fun e => minimum < block_height e) removed /\
    sanity_guard minimum (sanity_loop fuel minimum estimates) = false.
Proof.
  revert estimates. induction fuel as [|fuel IH]; intros estimates Hlen.
  - destruct estimates; simpl in *; [|lia].
    exists []. by repeat split.
  - simpl. destruct (sanity_guard minimum estimates) eqn:Hguard.
    + unfold sanity_guard in Hguard.
      destruct (last estimates) as [e|] eqn:Hlast; [|discriminate].
      apply last_Some in Hlast as [l ->]. apply Z.ltb_lt in Hguard.
      rewrite removelast_last.
      destruct (IH l) as (removed & Hl & Hall & Hstop).
      { rewrite length_app in Hlen. simpl in Hlen. lia. }
      exists (removed ++ [e]). split; [|split; [|exact Hstop]].
      * rewrite app_assoc. by rewrite <- Hl.
      * apply Forall_app. split; [exact Hall|]. by constructor.
    + exists []. rewrite app_nil_r. split; [done|]. split; [constructor|done].
Qed.

Lemma filter_keep_all (P : estimate -> Prop) `{!forall e, Decision (P e)}
    (l : list estimate) :
  Forall P l -> filter P l = l.
Proof.
  induction 1 as [|e l He _ IH]; [done|].
  by rewrite filter_cons_True, IH.
Qed.

Lemma filter_drop_all (P : estimate -> Prop) `{!forall e, Decision (P e)}
    (l : list estimate) :
  Forall (fun e => ~ P e) l -> filter P l = [].
Proof.
  induction 1 as [|e l He _ IH]; [done|].
  by rewrite filter_cons_False, IH.
Qed.

(** In an ordered list a false guard bounds every element. *)
Lemma guard_false_bounds (minimum : Z) (l : list estimate) :
  Sorted by_height l ->
  sanity_guard minimum l = false ->
  Forall (fun e => block_height e <= minimum) l.
Proof.
  intros Hsorted Hguard. apply Sorted_StronglySorted in Hsorted; [|apply _].
  unfold sanity_guard in Hguard.
  destruct (last l) as [e|] eqn:Hlast.
  - apply last_Some in Hlast as [l' ->].
    apply Z.ltb_ge in Hguard.
    apply StronglySorted_app in Hsorted as [Hle _].
    apply Forall_app. split.
    + apply Forall_forall. intros x Hx.
      specialize (Hle x e Hx ltac:(by apply list_elem_of_singleton)).
      unfold by_height in Hle. lia.
    + by constructor.
  - apply last_None in Hlast as ->. constructor.
Qed.

Lemma sanity_check_data_sorted (estimates : list estimate) (maximum : Z) :
  Sorted by_height estimates ->
  sanity_check_data estimates maximum
  = filter (fun e => block_height e <= maximum - 1008) estimates.
Proof.
  intros Hsorted. unfold sanity_check_data.
  destruct (sanity_loop_spec (length estimates) (maximum - 1008) estimates)
    as (removed & Heq & Hremoved & Hguard); [lia|].
  remember (sanity_loop (length estimates) (maximum - 1008) estimates)
    as kept eqn:Hkept_def. clear Hkept_def.
  assert (Sorted by_height kept) as Hkept.
  { apply Sorted_StronglySorted in Hsorted; [|apply _].
    rewrite Heq in Hsorted.
    apply StronglySorted_app in Hsorted as [_ [Hk _]].
    by apply StronglySorted_Sorted. }
  rewrite Heq. rewrite filter_app.
  rewrite filter_keep_all by (by apply guard_false_bounds).
  rewrite filter_drop_all; [by rewrite app_nil_r|].
  eapply Forall_impl; [exact Hremoved|]. simpl. intros e He. lia.
Qed.

End Trimmer.

(** C4: [sanity_check_data] pops from the tail while the list is not empty
    and [maximum_block_height - 1008] is below the block height of the last
    estimate: what it removes is a suffix of estimates above that bound and
    it stops where the condition is false.  When the input is ordered by
    block height and the maximum is 2000, exactly the estimates with block
    height above 992 are removed: one at 992 stays, one at 993 goes. *)
Theorem sanity_check_data_trims (estimates : list estimate) (maximum : Z) :
  (exists removed,
     estimates = sanity_check_data estimates maximum ++ removed /\
     Forall (fun e => maximum - 1008 < block_height e) removed /\
     sanity_guard (maximum - 1008) (sanity_check_data estimates maximum)
     = false) /\
  (Sorted by_height estimates -> maximum = 2000 ->
   sanity_check_data estimates maximum
   = filter (fun e => block_height e <= 992) estimates /\
   (forall e, e ∈ estimates -> block_height e = 992 ->
      e ∈ sanity_check_data estimates maximum) /\
   (forall e, block_height e = 993 ->
      e ∉ sanity_check_data estimates maximum)).
Proof.
  split.
  - apply sanity_loop_spec. unfold sanity_check_data. lia.
  - intros Hsorted ->.
    rewrite (sanity_check_data_sorted estimates 2000 Hsorted).
    change (2000 - 1008) with 992.
    split; [reflexivity|]. split.
    + intros e He Hbh. apply list_elem_of_filter. split; [lia|exact He].
    + intros e Hbh Hin. apply list_elem_of_filter in Hin as [Hle _]. lia.
Qed.

Lemma sanity_check_data_trims_witness :
  sanity_check_data four_estimates 2000
  = [ Estimate 2 990 10 8; Estimate 6 992 10 8 ].
Proof.
  destruct (sanity_check_data_trims four_estimates 2000) as [_ Hsorted].
  destruct Hsorted as [Hfilter _].
  - repeat constructor; unfold by_height; simpl; lia.
  - reflexivity.
  - rewrite Hfilter. reflexivity.
Defined.

(** ** The classifier *)

Section Scan.

Lemma visit_underpaid (fee_rate : Z) (block : block_stat) (r : res) :
  res_underpaid (visit fee_rate block r)
  = res_underpaid r || (fee_rate <? p_5 block).
Proof.
  unfold visit. destruct (fee_rate <? p_5 block), (fee_rate >? p_50 block);
    simpl; by rewrite ?orb_true_r, ?orb_false_r.
Qed.

Lemma visit_overpaid (fee_rate : Z) (block : block_stat) (r : res) :
  res_overpaid (visit fee_rate block r)
  = res_overpaid r || (fee_rate >? p_50 block).
Proof.
  unfold visit. destruct (fee_rate <? p_5 block), (fee_rate >? p_50 block);
    simpl; by rewrite ?orb_true_r, ?orb_false_r.
Qed.

Lemma visit_within (fee_rate : Z) (block : block_stat) (r : res) :
  res_within (visit fee_rate block r)
  = res_within r || negb (fee_rate >? p_50 block).
Proof.
  unfold visit. destruct (fee_rate <? p_5 block), (fee_rate >? p_50 block);
    simpl; by rewrite ?orb_true_r, ?orb_false_r.
Qed.

(** A flag is set after the visits when it was set before or one of the
    visited blocks passes its test. *)
Lemma visit_all_flag (flag : res -> bool) (test : Z -> block_stat -> bool)
    (fee_rate : Z) (found : list block_stat) (r : res) :
  (forall block r', flag (visit fee_rate block r')
                    = flag r' || test fee_rate block) ->
  flag (visit_all fee_rate found r) = true <->
  flag r = true \/ exists block, block ∈ found /\ test fee_rate block = true.
Proof.
  intros Hvisit. unfold visit_all. revert r.
  induction found as [|b found IH]; intros r; simpl.
  - split; [by left|]. intros [H|(block & Hin & _)]; [done|].
    by apply elem_of_nil in Hin.
  - rewrite IH, Hvisit. rewrite orb_true_iff. split.
    + intros [[H|H]|(block & Hin & H)].
      * by left.
      * right. exists b. split; [apply list_elem_of_here|done].
      * right. exists block. split; [by apply list_elem_of_further|done].
    + intros [H|(block & Hin & H)]; [by left; left|].
      apply elem_of_cons in Hin as [->|Hin]; [by left; right|].
      right. by exists block.
Qed.

(** The loop, given fuel for every height up to [max_height], visits the
    blocks present at the heights from [curr_height] on and stops with
    its guard false. *)
Lemma scan_loop_spec (fuel : nat) (est : estimate)
    (blocks : gmap Z block_stat) (max_height curr_height : Z)
    (cons_res econs_res : res) :
  (Z.to_nat (max_height - curr_height) <= fuel)%nat ->
  scan_loop fuel est blocks max_height curr_height cons_res econs_res
  = (Z.max curr_height max_height,
     visit_all (conservative_fee_rate est)
       (omap (fun h => blocks !! h)
             (seqZ curr_height (max_height - curr_height))) cons_res,
     visit_all (economic_fee_rate est)
       (omap (fun h => blocks !! h)
             (seqZ curr_height (max_height - curr_height))) econs_res).
Proof.
  revert curr_height cons_res econs_res.
  induction fuel as [|fuel IH]; intros curr_height cons_res econs_res Hfuel;
    simpl.
  - rewrite seqZ_nil by lia. simpl. do 2 f_equal. lia.
  - destruct (Z.ltb_spec curr_height max_height) as [Hlt|Hge].
    + rewrite (seqZ_cons curr_height) by lia.
      replace (Z.succ curr_height) with (curr_height + 1) by lia.
      replace (Z.pred (max_height - curr_height))
        with (max_height - (curr_height + 1)) by lia.
      csimpl.
      destruct (blocks !! curr_height) as [block|]; csimpl;
        (rewrite IH by lia); do 2 f_equal; lia.
    + rewrite seqZ_nil by lia. simpl. do 2 f_equal. lia.
Qed.

Lemma scan_spec (est : estimate) (blocks : gmap Z block_stat) :
  scan est blocks
  = (Z.max (block_height est + 1) (block_height est + conf_target est),
     visit_all (conservative_fee_rate est) (window est blocks) no_flag,
     visit_all (economic_fee_rate est) (window est blocks) no_flag).
Proof.
  unfold scan, window. rewrite scan_loop_spec by lia.
  by replace (block_height est + conf_target est - (block_height est + 1))
    with (conf_target est - 1) by lia.
Qed.

(** The blocks of the window are those of the mapping at its heights. *)
Lemma elem_of_window (est : estimate) (blocks : gmap Z block_stat)
    (block : block_stat) :
  block ∈ window est blocks <->
  exists h, block_height est + 1 <= h < block_height est + conf_target est /\
            blocks !! h = Some block.
Proof.
  unfold window. rewrite list_elem_of_omap. split.
  - intros (h & Hh & Hb). apply elem_of_seqZ in Hh. exists h. split; [lia|done].
  - intros (h & Hh & Hb). exists h. split; [|done]. apply elem_of_seqZ. lia.
Qed.

Lemma window_nil (est : estimate) (blocks : gmap Z block_stat) :
  window est blocks = [] <->
  forall h, block_height est + 1 <= h < block_height est + conf_target est ->
            blocks !! h = None.
Proof.
  split.
  - intros Hnil h Hh. destruct (blocks !! h) as [block|] eqn:Hb; [|done].
    assert (block ∈ window est blocks) as Hin
      by (apply elem_of_window; eauto).
    rewrite Hnil in Hin. by apply elem_of_nil in Hin.
  - intros Hnone. destruct (window est blocks) as [|block l] eqn:Hw; [done|].
    assert (block ∈ window est blocks) as Hin
      by (rewrite Hw; apply list_elem_of_here).
    apply elem_of_window in Hin as (h & Hh & Hb).
    rewrite (Hnone h Hh) in Hb. discriminate.
Qed.

End Scan.

Section Counting.

Lemma ensure_bucket_lookup (target : Z) (result_dict : gmap Z bucket) :
  ensure_bucket target result_dict !! target
  = Some (bucket_before target result_dict).
Proof.
  unfold ensure_bucket, bucket_before.
  destruct (result_dict !! target) as [b|] eqn:Hb; simpl; [done|].
  apply lookup_insert_eq.
Qed.

Lemma ensure_bucket_other (target t : Z) (result_dict : gmap Z bucket) :
  t ≠ target -> ensure_bucket target result_dict !! t = result_dict !! t.
Proof.
  intros Hne. unfold ensure_bucket.
  destruct (result_dict !! target); [done|]. by rewrite lookup_insert_ne.
Qed.

(** After [ensure_bucket] the update cannot raise, and it counts once. *)
Lemma update_results_counts (r : res) (target : Z)
    (result_dict : gmap Z bucket) :
  exists after,
    update_results r target (ensure_bucket target result_dict) = Ok after /\
    counted_once r target result_dict after.
Proof.
  unfold update_results. rewrite ensure_bucket_lookup.
  destruct (res_overpaid r) eqn:Ho; [|destruct (res_within r) eqn:Hw];
    (eexists; split; [reflexivity|]); unfold counted_once; rewrite Ho, ?Hw;
    (split;
     [ intros t Hne; rewrite lookup_insert_ne by done;
       by apply ensure_bucket_other
     | eexists; split; [apply lookup_insert_eq|by simpl] ]).
Qed.

Lemma process_estimate_counts (blocks : gmap Z block_stat)
    (cons_result econs_result : gmap Z bucket) (est : estimate) :
  exists cons_result' econs_result',
    process_estimate blocks (cons_result, econs_result) est
    = Ok (cons_result', econs_result') /\
    counted_once
      (visit_all (conservative_fee_rate est) (window est blocks) no_flag)
      (conf_target est) cons_result cons_result' /\
    counted_once
      (visit_all (economic_fee_rate est) (window est blocks) no_flag)
      (conf_target est) econs_result econs_result'.
Proof.
  unfold process_estimate. rewrite scan_spec.
  destruct (update_results_counts
              (visit_all (conservative_fee_rate est) (window est blocks) no_flag)
              (conf_target est) cons_result) as (c' & Hc & Hcc).
  destruct (update_results_counts
              (visit_all (economic_fee_rate est) (window est blocks) no_flag)
              (conf_target est) econs_result) as (e' & He & Hec).
  exists c', e'. rewrite Hc. simpl. rewrite He. simpl. done.
Qed.

Lemma estimates_loop_ok (blocks : gmap Z block_stat)
    (results : gmap Z bucket * gmap Z bucket) (estimates : list estimate) :
  exists results', estimates_loop blocks results estimates = Ok results'.
Proof.
  revert results. induction estimates as [|est rest IH]; intros results; simpl.
  - by eexists.
  - destruct results as [c e].
    destruct (process_estimate_counts blocks c e est) as (c' & e' & -> & _).
    simpl. apply IH.
Qed.

(** Counting once adds one to the total of the target's entry and leaves
    the totals of the other entries. *)
Lemma counted_once_total (r : res) (target t : Z)
    (before after : gmap Z bucket) :
  counted_once r target before after ->
  bucket_total (after !! t)
  = bucket_total (before !! t) + (if decide (t = target) then 1 else 0).
Proof.
  intros [Hother (b' & Hb' & _ & _ & _ & Hcount)].
  destruct (decide (t = target)) as [->|Hne].
  - rewrite Hb'. unfold bucket_before in Hcount. simpl.
    destruct (before !! target) as [b|]; simpl in *;
      destruct (res_overpaid r), (res_within r);
      destruct Hcount as (Ho & Hw & Hu); lia.
  - rewrite (Hother t Hne). lia.
Qed.

Lemma count_target_cons (t : Z) (est : estimate) (rest : list estimate) :
  count_target t (est :: rest)
  = (if decide (t = conf_target est) then 1 else 0) + count_target t rest.
Proof.
  unfold count_target.
  destruct (decide (t = conf_target est)) as [->|Hne].
  - rewrite filter_cons_True by done. simpl length. lia.
  - rewrite filter_cons_False by (intros Heq; by apply Hne). lia.
Qed.

(** After the loop every entry has counted the estimates of its target. *)
Lemma estimates_loop_totals (blocks : gmap Z block_stat)
    (estimates : list estimate)
    (cons_result econs_result cons_result' econs_result' : gmap Z bucket) :
  estimates_loop blocks (cons_result, econs_result) estimates
  = Ok (cons_result', econs_result') ->
  forall t,
    bucket_total (cons_result' !! t)
    = bucket_total (cons_result !! t) + count_target t estimates /\
    bucket_total (econs_result' !! t)
    = bucket_total (econs_result !! t) + count_target t estimates.
Proof.
  revert cons_result econs_result.
  induction estimates as [|est rest IH]; intros c e Hloop t.
  - simpl in Hloop. injection Hloop as <- <-.
    unfold count_target. simpl. lia.
  - cbn [estimates_loop] in Hloop.
    destruct (process_estimate_counts blocks c e est)
      as (c1 & e1 & Hproc & Hc & He).
    rewrite Hproc in Hloop. simpl in Hloop.
    destruct (IH c1 e1 Hloop t) as [Hct Het].
    rewrite Hct, Het, count_target_cons.
    rewrite (counted_once_total _ _ t _ _ Hc).
    rewrite (counted_once_total _ _ t _ _ He). lia.
Qed.

End Counting.

Section Percentages.

Lemma bucket_percentages_nonzero (total : Q) (b : bucket) :
  Qeq_bool total 0 = false ->
  bucket_percentages total b = Ok (with_percentages total b).
Proof.
  intros Ht. unfold bucket_percentages, percentage. by rewrite Ht.
Qed.

Lemma bucket_percentages_zero (total : Q) (b : bucket) :
  Qeq_bool total 0 = true ->
  bucket_percentages total b = Raise ZeroDivisionError.
Proof.
  intros Ht. unfold bucket_percentages, percentage. by rewrite Ht.
Qed.

Lemma calculate_percentage_empty (total : Q) :
  calculate_percentage total ∅ = Ok ∅.
Proof. unfold calculate_percentage. by rewrite map_fold_empty. Qed.

Lemma percentage_fold_nonzero (total : Q) (start results : gmap Z bucket) :
  Qeq_bool total 0 = false ->
  map_fold
    (fun target b acc =>
       results' ← acc;
       b' ← bucket_percentages total b;
       Ok (<[target := b']> results'))
    (Ok start) results
  = Ok ((with_percentages total <$> results) ∪ start).
Proof.
  intros Ht.
  apply (map_fold_weak_ind
           (fun r m => r = Ok ((with_percentages total <$> m) ∪ start))).
  - by rewrite fmap_empty, (left_id_L ∅ (∪)).
  - intros i x m r Hi ->. simpl.
    rewrite bucket_percentages_nonzero by done. simpl.
    by rewrite fmap_insert, insert_union_l.
Qed.

(** With a total that is not zero every bucket gets its percentages. *)
Lemma calculate_percentage_nonzero (total : Q) (results : gmap Z bucket) :
  Qeq_bool total 0 = false ->
  calculate_percentage total results
  = Ok (with_percentages total <$> results).
Proof.
  intros Ht. unfold calculate_percentage.
  rewrite percentage_fold_nonzero by done.
  f_equal. apply map_eq. intros i.
  rewrite lookup_union, !lookup_fmap.
  by destruct (results !! i).
Qed.

(** With a zero total the first bucket met raises. *)
Lemma calculate_percentage_zero (total : Q) (results : gmap Z bucket) :
  Qeq_bool total 0 = true ->
  results ≠ ∅ ->
  calculate_percentage total results = Raise ZeroDivisionError.
Proof.
  intros Ht Hne. unfold calculate_percentage.
  generalize results at 1 as start. intros start.
  revert Hne.
  apply (map_fold_weak_ind
           (fun r m => (r = Ok start \/ r = Raise ZeroDivisionError) /\
                       (m ≠ ∅ -> r = Raise ZeroDivisionError))).
  - split; [by left|done].
  - intros i x m r Hi [Hr _].
    rewrite bucket_percentages_zero by done.
    destruct Hr as [-> | ->]; simpl; split; auto.
Qed.

Lemma total_nonzero (estimates : list estimate) :
  estimates ≠ [] ->
  Qeq_bool (inject_Z (Z.of_nat (length estimates)) / 12) 0 = false.
Proof.
  intros Hne. destruct estimates as [|e rest]; [done|].
  destruct (Qeq_bool _ 0) eqn:Heq; [|done].
  apply Qeq_bool_eq in Heq. unfold Qeq in Heq.
  rewrite Qnum_div12 in Heq. simpl in Heq. lia.
Qed.

End Percentages.

Section Classifier.

(** [calculate_percentages] raises nothing: the loop over the estimates
    gives the two dictionaries of counts and every bucket gets its
    percentages. *)
Lemma calculate_percentages_spec (estimates : list estimate)
    (blocks : gmap Z block_stat) :
  exists cons_counts econs_counts,
    estimates_loop blocks (∅, ∅) estimates = Ok (cons_counts, econs_counts) /\
    calculate_percentages estimates blocks
    = Ok (with_percentages (inject_Z (Z.of_nat (length estimates)) / 12)
            <$> cons_counts,
          with_percentages (inject_Z (Z.of_nat (length estimates)) / 12)
            <$> econs_counts).
Proof.
  destruct (estimates_loop_ok blocks (∅, ∅) estimates) as [[c e] Hloop].
  exists c, e. split; [exact Hloop|].
  unfold calculate_percentages. rewrite Hloop. simpl.
  destruct estimates as [|est rest].
  - simpl in Hloop. injection Hloop as <- <-.
    rewrite !calculate_percentage_empty. simpl. by rewrite !fmap_empty.
  - rewrite !calculate_percentage_nonzero by (by apply total_nonzero).
    done.
Qed.

(** In the result every entry has counted, in one of its three counters,
    each estimate of its target once. *)
Lemma calculate_percentages_totals (estimates : list estimate)
    (blocks : gmap Z block_stat) :
  exists cons_result econs_result,
    calculate_percentages estimates blocks = Ok (cons_result, econs_result) /\
    forall t,
      bucket_total (cons_result !! t) = count_target t estimates /\
      bucket_total (econs_result !! t) = count_target t estimates.
Proof.
  destruct (calculate_percentages_spec estimates blocks)
    as (c & e & Hloop & Hcalc).
  eexists _, _. split; [exact Hcalc|]. intros t.
  destruct (estimates_loop_totals blocks estimates ∅ ∅ c e Hloop t)
    as [Hc He].
  rewrite !lookup_empty in *. simpl in Hc, He.
  rewrite !lookup_fmap.
  split.
  - transitivity (bucket_total (c !! t)); [by destruct (c !! t)|lia].
  - transitivity (bucket_total (e !! t)); [by destruct (e !! t)|lia].
Qed.

(** No flag of the pair overpaid, within the range is set exactly when
    no block was visited. *)
Lemma no_visit_iff (fee_rate : Z) (found : list block_stat) :
  res_overpaid (visit_all fee_rate found no_flag) = false /\
  res_within (visit_all fee_rate found no_flag) = false <->
  found = [].
Proof.
  split.
  - intros [Ho Hw]. destruct found as [|block found]; [done|]. exfalso.
    destruct (fee_rate >? p_50 block) eqn:Hcmp.
    + apply not_true_iff_false in Ho. apply Ho.
      apply (visit_all_flag res_overpaid (fun f b => f >? p_50 b));
        [apply visit_overpaid|].
      right. exists block. split; [apply list_elem_of_here|done].
    + apply not_true_iff_false in Hw. apply Hw.
      apply (visit_all_flag res_within (fun f b => negb (f >? p_50 b)));
        [apply visit_within|].
      right. exists block. split; [apply list_elem_of_here|by rewrite Hcmp].
  - by intros ->.
Qed.

Lemma counted_underpaid_iff (r : res) (target : Z)
    (before after : gmap Z bucket) (b' : bucket) :
  counted_once r target before after ->
  after !! target = Some b' ->
  underpaid b' = underpaid (bucket_before target before) + 1 <->
  res_overpaid r = false /\ res_within r = false.
Proof.
  intros [_ (b'' & Hb'' & _ & _ & _ & Hcount)] Hb'.
  rewrite Hb'' in Hb'. injection Hb' as ->.
  destruct (res_overpaid r), (res_within r);
    destruct Hcount as (Ho & Hw & Hu); split; try done;
    try (intros Heq; lia); by intros [? ?].
Qed.

End Classifier.

Section Window.

Lemma visit_all_flags_of_window (fee_rate : Z) (est : estimate)
    (blocks : gmap Z block_stat) :
  flags_of_window fee_rate est blocks
    (visit_all fee_rate (window est blocks) no_flag).
Proof.
  unfold flags_of_window, in_window. repeat split.
  - intros H.
    apply (visit_all_flag res_underpaid (fun f b => f <? p_5 b)) in H;
      [|apply visit_underpaid].
    destruct H as [H|(block & Hin & H)]; [discriminate|].
    apply elem_of_window in Hin as (h & Hh & Hb).
    exists h, block. apply Z.ltb_lt in H. done.
  - intros (h & block & [Hh Hb] & H).
    apply (visit_all_flag res_underpaid (fun f b => f <? p_5 b));
      [apply visit_underpaid|].
    right. exists block. split; [apply elem_of_window; eauto|].
    by apply Z.ltb_lt.
  - intros H.
    apply (visit_all_flag res_overpaid (fun f b => f >? p_50 b)) in H;
      [|apply visit_overpaid].
    destruct H as [H|(block & Hin & H)]; [discriminate|].
    apply elem_of_window in Hin as (h & Hh & Hb).
    exists h, block. apply Z.gtb_gt in H. done.
  - intros (h & block & [Hh Hb] & H).
    apply (visit_all_flag res_overpaid (fun f b => f >? p_50 b));
      [apply visit_overpaid|].
    right. exists block. split; [apply elem_of_window; eauto|].
    by apply Z.gtb_gt.
  - intros H.
    apply (visit_all_flag res_within (fun f b => negb (f >? p_50 b))) in H;
      [|apply visit_within].
    destruct H as [H|(block & Hin & H)]; [discriminate|].
    apply elem_of_window in Hin as (h & Hh & Hb).
    exists h, block. apply negb_true_iff in H.
    rewrite Z.gtb_ltb in H. apply Z.ltb_ge in H. done.
  - intros (h & block & [Hh Hb] & H).
    apply (visit_all_flag res_within (fun f b => negb (f >? p_50 b)));
      [apply visit_within|].
    right. exists block. split; [apply elem_of_window; eauto|].
    apply negb_true_iff. rewrite Z.gtb_ltb. by apply Z.ltb_ge.
Qed.

End Window.

(** C2: the scan of an estimate ends with its height at or beyond
    [block_height + conf_target], and each flag it returns is set exactly
    when some height [h] with [block_height + 1 <= h < block_height +
    conf_target] that is present in the blocks mapping passes the test of
    that flag; heights outside that range and heights absent from the
    mapping set nothing.  Whatever the blocks mapping lacks,
    [calculate_percentages] returns a result. *)
Theorem scan_visits_window (est : estimate) (blocks : gmap Z block_stat) :
  ~ ((scan est blocks).1.1 < block_height est + conf_target est) /\
  flags_of_window (conservative_fee_rate est) est blocks (scan est blocks).1.2 /\
  flags_of_window (economic_fee_rate est) est blocks (scan est blocks).2 /\
  forall estimates, exists cons_result econs_result,
    calculate_percentages estimates blocks = Ok (cons_result, econs_result).
Proof.
  rewrite scan_spec. simpl. split; [lia|]. split; [|split].
  - apply visit_all_flags_of_window.
  - apply visit_all_flags_of_window.
  - intros estimates.
    destruct (calculate_percentages_spec estimates blocks)
      as (c & e & _ & Hcalc).
    eauto.
Qed.

(** C1: processing one estimate raises nothing and counts it once in each
    mode, in the bucket of its [conf_target] (created with zero counts when
    absent): the overpaid counter when the overpaid flag of the scan is
    set, else the within-the-range counter when that flag is set, else the
    underpaid counter; the other two counters and all other buckets are
    unchanged.  Over a whole run, the three counters of a bucket add up to
    the number of estimates of its [conf_target], in each mode. *)
Theorem estimate_counted_by_priority (blocks : gmap Z block_stat)
    (cons_result econs_result : gmap Z bucket) (est : estimate) :
  (exists cons_result' econs_result',
     process_estimate blocks (cons_result, econs_result) est
     = Ok (cons_result', econs_result') /\
     counted_once (scan est blocks).1.2 (conf_target est)
       cons_result cons_result' /\
     counted_once (scan est blocks).2 (conf_target est)
       econs_result econs_result') /\
  (forall estimates, exists cons_final econs_final,
     calculate_percentages estimates blocks = Ok (cons_final, econs_final) /\
     forall t,
       bucket_total (cons_final !! t) = count_target t estimates /\
       bucket_total (econs_final !! t) = count_target t estimates).
Proof.
  split.
  - rewrite scan_spec. simpl. apply process_estimate_counts.
  - intros estimates. apply calculate_percentages_totals.
Qed.

(** C9: for each mode, the estimate is counted as underpaid exactly when no
    height of its window is present in the blocks mapping.  A visited block
    sets the overpaid flag when the fee rate is above [p_50] and the
    within-the-range flag otherwise, and the underpaid flag has no part in
    [update_results]. *)
Theorem underpaid_iff_window_empty (blocks : gmap Z block_stat)
    (cons_result econs_result : gmap Z bucket) (est : estimate) :
  (exists cons_result' econs_result' cb eb,
     process_estimate blocks (cons_result, econs_result) est
     = Ok (cons_result', econs_result') /\
     cons_result' !! conf_target est = Some cb /\
     econs_result' !! conf_target est = Some eb /\
     (underpaid cb
      = underpaid (bucket_before (conf_target est) cons_result) + 1 <->
      forall h, block_height est + 1 <= h < block_height est + conf_target est ->
                blocks !! h = None) /\
     (underpaid eb
      = underpaid (bucket_before (conf_target est) econs_result) + 1 <->
      forall h, block_height est + 1 <= h < block_height est + conf_target est ->
                blocks !! h = None)) /\
  (forall fee_rate block r,
     (fee_rate > p_50 block ->
      res_overpaid (visit fee_rate block r) = true) /\
     (fee_rate <= p_50 block ->
      res_within (visit fee_rate block r) = true)) /\
  (forall r flag target result_dict,
     update_results (Res flag (res_overpaid r) (res_within r)) target result_dict
     = update_results r target result_dict).
Proof.
  split; [|split].
  - destruct (process_estimate_counts blocks cons_result econs_result est)
      as (c' & e' & Hproc & Hc & He).
    pose proof Hc as [_ (cb & Hcb & _)]. pose proof He as [_ (eb & Heb & _)].
    exists c', e', cb, eb. repeat (split; [done|]). split.
    + rewrite (counted_underpaid_iff _ _ _ _ _ Hc Hcb).
      rewrite no_visit_iff. apply window_nil.
    + rewrite (counted_underpaid_iff _ _ _ _ _ He Heb).
      rewrite no_visit_iff. apply window_nil.
  - intros fee_rate block r. split; intros H.
    + rewrite visit_overpaid. apply orb_true_iff. right. by apply Z.gtb_gt.
    + rewrite visit_within. apply orb_true_iff. right.
      apply negb_true_iff. rewrite Z.gtb_ltb. by apply Z.ltb_ge.
  - intros r flag target result_dict. reflexivity.
Qed.

(** C3, as stated, fails: with [conf_target = 2] and [block_height = 100]
    the scan covers height 101 only, height 102 is not visited and the
    conservative underpaid flag is not set. *)
Lemma example_underpaid_flag_not_set :
  scan (example_estimate 10) example_blocks
  = (102, Res false false true, Res false false true) /\
  ~ (res_underpaid (scan (example_estimate 10) example_blocks).1.2 = true /\
     res_overpaid (scan (example_estimate 10) example_blocks).1.2 = false).
Proof.
  split; [vm_compute; reflexivity|].
  intros [Hu _]. vm_compute in Hu. discriminate Hu.
Qed.

(** C3, amended: on that input the scan visits the block at height 101
    only; the conservative underpaid flag stays clear (height 102 is
    outside the window), the overpaid flag is never set, the
    within-the-range flag is set, and the estimate is counted as "within
    the range" in conservative mode. *)
Theorem example_within_the_range (economic : Z) :
  window (example_estimate economic) example_blocks = [BlockStat 101 5 20] /\
  (scan (example_estimate economic) example_blocks).1.2 = Res false false true /\
  exists cons_result econs_result b,
    calculate_percentages [example_estimate economic] example_blocks
    = Ok (cons_result, econs_result) /\
    cons_result !! 2 = Some b /\
    underpaid b = 0 /\ overpaid b = 0 /\ within_the_range b = 1.
Proof.
  assert (window (example_estimate economic) example_blocks
          = [BlockStat 101 5 20]) as Hwindow by (vm_compute; reflexivity).
  assert (visit_all (conservative_fee_rate (example_estimate economic))
            (window (example_estimate economic) example_blocks) no_flag
          = Res false false true) as Hflags
    by (rewrite Hwindow; vm_compute; reflexivity).
  assert ((scan (example_estimate economic) example_blocks).1.2
          = Res false false true) as Hscan
    by (rewrite scan_spec; exact Hflags).
  split; [exact Hwindow|]. split; [exact Hscan|].
  destruct (calculate_percentages_spec [example_estimate economic]
              example_blocks) as (c & e & Hloop & Hcalc).
  cbn [estimates_loop] in Hloop.
  destruct (process_estimate_counts example_blocks ∅ ∅
              (example_estimate economic)) as (c' & e' & Hproc & Hc & _).
  rewrite Hproc in Hloop. simpl in Hloop. injection Hloop as <- <-.
  rewrite Hflags in Hc.
  destruct Hc as [_ (b & Hb & _ & _ & _ & Ho & Hw & Hu)].
  simpl in Ho, Hw, Hu.
  change (conf_target (example_estimate economic)) with 2 in Hb.
  eexists _, _, _. split; [exact Hcalc|].
  split; [by rewrite lookup_fmap, Hb|]. simpl.
  unfold bucket_before in *. rewrite lookup_empty in *. simpl in *. lia.
Qed.



(** C10: with no estimate, [calculate_percentages] returns two empty
    dictionaries and raises nothing.  The total is then zero, and a
    division by it would raise for any dictionary that has a bucket; it
    does not happen because the loop over an empty dictionary has no
    iteration. *)
Theorem no_estimate_no_division (blocks : gmap Z block_stat) :
  calculate_percentages [] blocks = Ok (∅, ∅) /\
  (inject_Z (Z.of_nat (length ([] : list estimate))) / 12 == 0)%Q /\
  calculate_percentage (inject_Z (Z.of_nat (length ([] : list estimate))) / 12) ∅
  = Ok ∅ /\
  forall results : gmap Z bucket,
    results ≠ ∅ ->
    calculate_percentage
      (inject_Z (Z.of_nat (length ([] : list estimate))) / 12) results
    = Raise ZeroDivisionError.
Proof.
  split; [|split; [reflexivity|split]].
  - unfold calculate_percentages. simpl.
    by rewrite !calculate_percentage_empty.
  - apply calculate_percentage_empty.
  - intros results Hne. by apply calculate_percentage_zero.
Qed.

Lemma no_estimate_no_division_witness :
  calculate_percentage (inject_Z (Z.of_nat (length ([] : list estimate))) / 12)
    {[ 2 := initialize_results ]}
  = Raise ZeroDivisionError.
Proof.
  apply (proj2 (proj2 (proj2 (no_estimate_no_division ∅)))).
  apply insert_non_empty.
Defined.

(** * Further properties *)

(** ** The unit converter on ordered and on small rates *)

Section Truncation.

Lemma Qnum_nonneg_le (x y : Q) : (x <= y)%Q -> 0 <= Qnum x -> 0 <= Qnum y.
Proof.
  destruct x as [a b], y as [c d]. unfold Qle. simpl. intros Hle Ha. nia.
Qed.

(** Truncation toward zero keeps the order of the rationals. *)
Lemma truncation_monotone (x y : Q) :
  (x <= y)%Q ->
  Z.quot (Qnum x) (Zpos (Qden x)) <= Z.quot (Qnum y) (Zpos (Qden y)).
Proof.
  intros Hle. destruct (Z_le_gt_dec 0 (Qnum x)) as [Hx|Hx].
  - rewrite !quot_floor by eauto using Qnum_nonneg_le.
    by apply Qfloor_resp_le.
  - rewrite (quot_ceiling x) by lia.
    destruct (Z_le_gt_dec (Qnum y) 0) as [Hy|Hy].
    + rewrite (quot_ceiling y) by lia. by apply Qceiling_resp_le.
    + rewrite (quot_floor y) by lia.
      assert (Qceiling x <= Qceiling 0) as H1.
      { apply Qceiling_resp_le. destruct x as [a b]. unfold Qle. simpl in *. lia. }
      assert (Qfloor 0 <= Qfloor y) as H2.
      { apply Qfloor_resp_le. destruct y as [c d]. unfold Qle. simpl in *. lia. }
      change (Qceiling 0) with 0 in H1. change (Qfloor 0) with 0 in H2. lia.
Qed.

Lemma div1000_le (x y : Q) : (x <= y)%Q -> (x / 1000 <= y / 1000)%Q.
Proof.
  intros Hle. unfold Qdiv. apply Qmult_le_compat_r; [exact Hle|].
  unfold Qle. simpl. lia.
Qed.

End Truncation.

(** X1: the converter keeps the order of the rates it is given: of two
    inputs that [float] turns into finite values, the greater one does not
    convert to a smaller rate per byte. *)
Theorem conversion_monotone (v1 v2 : json) (q1 q2 : Q) (r1 r2 : Z) :
  float_ v1 = Ok (Finite q1) ->
  float_ v2 = Ok (Finite q2) ->
  (q1 <= q2)%Q ->
  sats_per_kb_to_sats_per_byte v1 = Ok r1 ->
  sats_per_kb_to_sats_per_byte v2 = Ok r2 ->
  r1 <= r2.
Proof.
  intros H1 H2 Hle Hr1 Hr2.
  rewrite (conversion_finite v1 q1 H1) in Hr1. injection Hr1 as <-.
  rewrite (conversion_finite v2 q2 H2) in Hr2. injection Hr2 as <-.
  apply (truncation_monotone (q1 / 1000) (q2 / 1000)). by apply div1000_le.
Qed.

Lemma conversion_monotone_witness : -1 <= 2.
Proof.
  apply (conversion_monotone (JStr "-1500") (JInt 2999)
           (-1500 # 1) (inject_Z 2999) (-1) 2);
    vm_compute; try reflexivity; discriminate.
Defined.



(** ** The loader: order, first failure, escaping exceptions *)

Section LoaderOutcomes.

Lemma comprehension_Ok_iff {A B : Type} (f : A -> result B)
    (l : list A) (ys : list B) :
  comprehension f l = Ok ys <-> Forall2 (fun x y => f x = Ok y) l ys.
Proof.
  revert ys. induction l as [|x l IH]; intros ys; simpl.
  - split.
    + intros H. injection H as <-. constructor.
    + intros H. by inv H.
  - split.
    + intros H. destruct (f x) as [y|e] eqn:Hx; simpl in H; [|discriminate].
      destruct (comprehension f l) as [ys'|e] eqn:Hl; simpl in H;
        [|discriminate].
      injection H as <-. constructor; [done|]. by apply IH.
    + intros H. inv H. rename select (f x = Ok _) into Hx.
      rename select (Forall2 _ _ _) into Hl.
      apply IH in Hl. rewrite Hx. simpl. rewrite Hl. done.
Qed.

Lemma subscript_raises (v : json) (key : string) (e : exn) :
  subscript v key = Raise e -> e = KeyError \/ e = TypeError.
Proof.
  destruct v; simpl; try (intros H; injection H as <-; by right).
  destruct (assoc key fields); [discriminate|].
  intros H; injection H as <-; by left.
Qed.

Lemma float_raises (v : json) (e : exn) :
  float_ v = Raise e ->
  e = TypeError \/ e = ValueError \/ e = OverflowError.
Proof.
  destruct v; simpl; try discriminate;
    try (intros H; injection H as <-; by left).
  - destruct (PyFloat.int_too_large <=? Z.abs z); [|discriminate].
    intros H; injection H as <-. by right; right.
  - destruct (PyFloat.of_string s); [discriminate|].
    intros H; injection H as <-. by right; left.
Qed.

Lemma int_raises (f : pyfloat) (e : exn) :
  int_ f = Raise e -> e = ValueError \/ e = OverflowError.
Proof.
  destruct f; simpl; [discriminate| |];
    intros H; injection H as <-; [by right|by left].
Qed.

Lemma int_field_raises (v : json) (key : string) (e : exn) :
  int_field v key = Raise e -> conversion_error e.
Proof.
  unfold int_field, conversion_error. intros H.
  destruct (subscript v key) as [x|e1] eqn:Hs; simpl in H.
  - destruct (float_ x) as [f|e2] eqn:Hf; simpl in H.
    + apply int_raises in H. tauto.
    + injection H as <-. apply float_raises in Hf. tauto.
  - injection H as <-. apply subscript_raises in Hs. tauto.
Qed.

Lemma rate_field_raises (v : json) (key : string) (e : exn) :
  rate_field v key = Raise e -> conversion_error e.
Proof.
  unfold rate_field, sats_per_kb_to_sats_per_byte, conversion_error. intros H.
  destruct (subscript v key) as [x|e1] eqn:Hs; simpl in H.
  - destruct (float_ x) as [f|e2] eqn:Hf; simpl in H.
    + apply int_raises in H. tauto.
    + injection H as <-. apply float_raises in Hf. tauto.
  - injection H as <-. apply subscript_raises in Hs. tauto.
Qed.

Lemma fee_record_raises (r : json) (e : exn) :
  fee_record r = Raise e -> conversion_error e.
Proof.
  unfold fee_record. intros H.
  destruct (int_field r "conf_target") eqn:H1; simpl in H;
    [|injection H as <-; by eapply int_field_raises].
  destruct (int_field r "block_height") eqn:H2; simpl in H;
    [|injection H as <-; by eapply int_field_raises].
  destruct (rate_field r "conservative_fee_rate") eqn:H3; simpl in H;
    [|injection H as <-; by eapply rate_field_raises].
  destruct (rate_field r "economic_fee_rate") eqn:H4; simpl in H;
    [discriminate|injection H as <-; by eapply rate_field_raises].
Qed.

Lemma block_record_raises (r : json) (e : exn) :
  block_record r = Raise e -> conversion_error e.
Proof.
  unfold block_record. intros H.
  destruct (int_field r "block_height") eqn:H1; simpl in H;
    [|injection H as <-; by eapply int_field_raises].
  destruct (rate_field r "p_5") eqn:H3; simpl in H;
    [|injection H as <-; by eapply rate_field_raises].
  destruct (rate_field r "p_50") eqn:H4; simpl in H;
    [discriminate|injection H as <-; by eapply rate_field_raises].
Qed.

Lemma comprehension_raises {A B : Type} (f : A -> result B)
    (P : exn -> Prop) (l : list A) (e : exn) :
  (forall x e', f x = Raise e' -> P e') ->
  comprehension f l = Raise e -> P e.
Proof.
  intros Hf. induction l as [|x l IH]; simpl; [discriminate|].
  destruct (f x) as [y|e'] eqn:Hx; simpl.
  - destruct (comprehension f l) as [ys|e'']; simpl; [discriminate|].
    intros H. injection H as <-. by apply IH.
  - intros H. injection H as <-. by eapply Hf.
Qed.

Lemma iterate_raises (v : json) (e : exn) :
  iterate v = Raise e -> e = TypeError.
Proof. destruct v; simpl; try discriminate; by intros H; injection H as <-. Qed.

Lemma read_fees_raises (data : json) (e : exn) :
  read_fees data = Raise e -> conversion_error e.
Proof.
  unfold read_fees. destruct (iterate data) as [records|e'] eqn:Hit; simpl.
  - apply comprehension_raises. apply fee_record_raises.
  - intros H. injection H as <-. apply iterate_raises in Hit as ->.
    unfold conversion_error. tauto.
Qed.

(** The loop of [read_blocks] lets only an exception pass that its handler
    does not list. *)
Lemma read_blocks_loop_raises (records : list json)
    (filtered_blocks : gmap Z block_stat) (log log' : list exn) (e : exn) :
  read_blocks_loop records filtered_blocks log = (Raise e, log') ->
  e = TypeError \/ e = OverflowError.
Proof.
  revert filtered_blocks log.
  induction records as [|r records IH]; intros m log; simpl; [discriminate|].
  destruct (block_record r) as [[h b]|e'] eqn:Hr; [apply IH|].
  destruct (block_handler e') eqn:Hh; [apply IH|].
  intros H. injection H as <- _.
  apply block_record_raises in Hr.
  destruct Hr as [-> | [-> | [-> | ->]]]; try discriminate; tauto.
Qed.

Lemma read_blocks_raises (data : json) (log : list exn) (e : exn) :
  read_blocks data = (Raise e, log) -> e = TypeError \/ e = OverflowError.
Proof.
  unfold read_blocks. destruct (iterate data) as [records|e'] eqn:Hit.
  - apply read_blocks_loop_raises.
  - intros H. injection H as <- _. apply iterate_raises in Hit. tauto.
Qed.

Lemma read_and_process_file_raises {A : Type} (file : result json)
    (read_function : json -> result A * list exn) (P : exn -> Prop)
    (e : exn) (log : list exn) :
  file_outcome file ->
  (forall data e' log', read_function data = (Raise e', log') -> P e') ->
  read_and_process_file file read_function = (Raise e, log) ->
  P e /\ file_handler e = false.
Proof.
  intros Hfile Hread. unfold read_and_process_file.
  destruct file as [data|e0].
  - destruct (read_function data) as [[a|e'] log'] eqn:Hr; [discriminate|].
    destruct (file_handler e') eqn:Hh; [discriminate|].
    intros H. injection H as <- _. split; [by eapply Hread|done].
  - simpl in Hfile. by destruct Hfile as [-> | ->].
Qed.

End LoaderOutcomes.

(** X3: [read_fees] returns estimates exactly when every record of the
    list converts; it then returns one estimate for each record, in the
    order of the records. *)
Theorem read_fees_keeps_order (records : list json) (ests : list estimate) :
  read_fees (JArr records) = Ok ests <->
  Forall2 (fun r e => fee_record r = Ok e) records ests.
Proof. unfold read_fees. simpl. apply comprehension_Ok_iff. Qed.

(** X4: the first fee record that fails decides the whole load, whatever
    converted before it: an exception that [read_and_process_file] handles
    leaves the empty list and one diagnostic, any other exception leaves
    the function. *)
Theorem fees_first_failure_decides (before after : list json) (r : json)
    (ests : list estimate) (e : exn) :
  comprehension fee_record before = Ok ests ->
  fee_record r = Raise e ->
  read_and_process_file (Ok (JArr (before ++ r :: after))) read_fees_quiet
  = if file_handler e then (Ok EmptyList, [e]) else (Raise e, []).
Proof.
  intros Hbefore Hr.
  unfold read_and_process_file, read_fees_quiet, read_fees. simpl.
  rewrite (comprehension_app_raise fee_record before after r ests e Hbefore Hr).
  by destruct (file_handler e).
Qed.

Lemma fees_first_failure_decides_witness :
  read_and_process_file
    (Ok (JArr ([ JObj [ ("conf_target"%string, JInt 2);
                        ("block_height"%string, JInt 100);
                        ("conservative_fee_rate"%string, JInt 10000);
                        ("economic_fee_rate"%string, JInt 8000) ] ]
               ++ JObj [ ("conf_target"%string, JStr "two") ] :: [])))
    read_fees_quiet
  = (Ok EmptyList, [ValueError]).
Proof.
  apply (fees_first_failure_decides _ [] _ [Estimate 2 100 10 8] ValueError);
    vm_compute; reflexivity.
Defined.

(** X5: when opening and parsing the files fails only in the two ways that
    [read_and_process_file] handles, an exception that leaves
    [read_data_from_file] is a [KeyError], a [TypeError] or an
    [OverflowError], and one that comes from the blocks file is not a
    [KeyError]. *)
Theorem loader_escaping_exceptions (fees_file blocks_file : option (result json))
    (e : exn) (log : list exn) :
  (forall f, fees_file = Some f -> file_outcome f) ->
  (forall f, blocks_file = Some f -> file_outcome f) ->
  read_data_from_file fees_file blocks_file = (Raise e, log) ->
  (e = KeyError \/ e = TypeError \/ e = OverflowError) /\
  (forall f log', blocks_file = Some f ->
     read_and_process_file f read_blocks = (Raise e, log') ->
     e = TypeError \/ e = OverflowError).
Proof.
  intros Hfees Hblocks Hread. split.
  - unfold read_data_from_file in Hread.
    destruct fees_file as [f|].
    + destruct (read_and_process_file f read_fees_quiet) as [[fees|e1] log1]
        eqn:Hf.
      * destruct blocks_file as [b|]; [|discriminate].
        destruct (read_and_process_file b read_blocks) as [[blocks|e2] log2]
          eqn:Hb; [discriminate|].
        injection Hread as <- _.
        apply (read_and_process_file_raises b read_blocks
                 (fun e => e = TypeError \/ e = OverflowError)) in Hb;
          [tauto|by apply Hblocks|].
        intros data e' log'. apply read_blocks_raises.
      * injection Hread as <- _.
        apply (read_and_process_file_raises f read_fees_quiet
                 conversion_error) in Hf; [|by apply Hfees|].
        -- destruct Hf as [[-> | [-> | [-> | ->]]] Hh]; try discriminate; tauto.
        -- intros data e' log'. unfold read_fees_quiet. intros H.
           injection H as H _. by apply read_fees_raises in H.
    + destruct blocks_file as [b|]; [|discriminate].
      destruct (read_and_process_file b read_blocks) as [[blocks|e2] log2]
        eqn:Hb; [discriminate|].
      injection Hread as <- _.
      apply (read_and_process_file_raises b read_blocks
               (fun e => e = TypeError \/ e = OverflowError)) in Hb;
        [tauto|by apply Hblocks|].
      intros data e' log'. apply read_blocks_raises.
  - intros f log' -> Hb.
    apply (read_and_process_file_raises f read_blocks
             (fun e => e = TypeError \/ e = OverflowError)) in Hb;
      [tauto|by apply Hblocks|].
    intros data e' log''. apply read_blocks_raises.
Qed.

Lemma loader_escaping_exceptions_witness :
  TypeError = KeyError \/ TypeError = TypeError \/ TypeError = OverflowError.
Proof.
  apply (loader_escaping_exceptions
           (Some (Raise OSError)) (Some (Ok blocks_with_null)) TypeError [OSError]).
  - intros f Hf. injection Hf as <-. simpl. by left.
  - intros f Hf. injection Hf as <-. exact I.
  - vm_compute. reflexivity.
Defined.

(** ** The blocks dictionary that [read_blocks] builds *)

Section BlocksDictionary.

Lemma block_record_height (r : json) (h : Z) (b : block_stat) :
  block_record r = Ok (h, b) -> conf_height b = h.
Proof.
  unfold block_record.
  destruct (int_field r "block_height") as [height|]; simpl; [|discriminate].
  destruct (rate_field r "p_5"); simpl; [|discriminate].
  destruct (rate_field r "p_50"); simpl; [|discriminate].
  intros H. by injection H as <- <-.
Qed.

Lemma read_blocks_loop_heights (records : list json)
    (filtered_blocks result_blocks : gmap Z block_stat) (log log' : list exn) :
  read_blocks_loop records filtered_blocks log = (Ok result_blocks, log') ->
  (forall h b, filtered_blocks !! h = Some b -> conf_height b = h) ->
  forall h b, result_blocks !! h = Some b -> conf_height b = h.
Proof.
  revert filtered_blocks log.
  induction records as [|r records IH]; intros m log; simpl.
  - intros H. by injection H as <- _.
  - destruct (block_record r) as [[height fb]|e] eqn:Hr.
    + intros Hloop Hinv. apply (IH _ _ Hloop).
      intros h b. rewrite lookup_insert. case_decide as Hh.
      * intros H. injection H as <-. subst.
        by apply (block_record_height r).
      * apply Hinv.
    + destruct (block_handler e); [|discriminate]. apply IH.
Qed.

(** A load that returns a dictionary met recoverable records only. *)
Lemma read_blocks_loop_Ok_recoverable (records : list json)
    (filtered_blocks result_blocks : gmap Z block_stat) (log log' : list exn) :
  read_blocks_loop records filtered_blocks log = (Ok result_blocks, log') ->
  Forall recoverable records.
Proof.
  revert filtered_blocks log.
  induction records as [|r records IH]; intros m log; simpl; [constructor|].
  unfold recoverable at 1.
  destruct (block_record r) as [[height fb]|e] eqn:Hr.
  - intros Hloop. constructor; [by rewrite Hr|by eapply IH].
  - destruct (block_handler e) eqn:Hh; [|discriminate].
    intros Hloop. constructor; [|by eapply IH].
    rewrite Hr. destruct e; try discriminate; tauto.
Qed.

(** The loop run over a recoverable prefix. *)
Lemma read_blocks_loop_app (before rest : list json)
    (acc : list (Z * block_stat)) (log : list exn) :
  Forall recoverable before ->
  read_blocks_loop (before ++ rest) (list_to_map (reverse acc)) log
  = read_blocks_loop rest
      (list_to_map (reverse (acc ++ valid_blocks before)))
      (log ++ diagnostics before).
Proof.
  intros Hrec. revert acc log.
  induction Hrec as [|r before Hr _ IH]; intros acc log.
  - unfold valid_blocks, diagnostics. simpl. by rewrite !app_nil_r.
  - unfold valid_blocks, diagnostics, recoverable in *. simpl.
    destruct (block_record r) as [[height fb]|e]; simpl.
    + replace (<[height:=fb]> (list_to_map (reverse acc)) : gmap Z block_stat)
        with (list_to_map (reverse (acc ++ [(height, fb)])) : gmap Z block_stat)
        by (by rewrite reverse_snoc).
      rewrite IH. by rewrite <- !app_assoc.
    + assert (block_handler e = true) as -> by (by destruct Hr as [-> | ->]).
      rewrite IH. by rewrite <- !app_assoc.
Qed.

(** In a dictionary built from a list of pairs in order, the entry of a
    key is the last pair of that key. *)
Lemma lookup_last_pair (l : list (Z * block_stat)) (h : Z) (b : block_stat) :
  (list_to_map (reverse l) : gmap Z block_stat) !! h = Some b <->
  exists l1 l2, l = l1 ++ (h, b) :: l2 /\ h ∉ l2.*1.
Proof.
  induction l as [|[k x] l IH] using rev_ind.
  - simpl. rewrite lookup_empty. split; [discriminate|].
    intros (l1 & l2 & Heq & _). by destruct l1.
  - rewrite reverse_snoc. simpl. rewrite lookup_insert.
    case_decide as Hk.
    + subst k. split.
      * intros H. injection H as <-. exists l, []. split; [done|].
        simpl. apply not_elem_of_nil.
      * intros (l1 & l2 & Heq & Hnot).
        destruct l2 as [|p l2 _] using rev_ind.
        -- apply app_inj_tail in Heq as [_ Heq]. by injection Heq as ->.
        -- exfalso. rewrite app_comm_cons, app_assoc in Heq.
           apply app_inj_tail in Heq as [_ <-].
           apply Hnot. rewrite fmap_app. apply elem_of_app. right.
           simpl. apply list_elem_of_here.
    + rewrite IH. split.
      * intros (l1 & l2 & -> & Hnot). exists l1, (l2 ++ [(k, x)]).
        split; [by rewrite <- app_assoc|].
        rewrite fmap_app. simpl. intros Hin.
        apply elem_of_app in Hin as [Hin|Hin]; [done|].
        apply list_elem_of_singleton in Hin. congruence.
      * intros (l1 & l2 & Heq & Hnot).
        destruct l2 as [|p l2 _] using rev_ind.
        -- apply app_inj_tail in Heq as [_ Heq]. congruence.
        -- rewrite app_comm_cons, app_assoc in Heq.
           apply app_inj_tail in Heq as [-> <-].
           exists l1, l2. split; [done|].
           intros Hin. apply Hnot. rewrite fmap_app. apply elem_of_app. by left.
Qed.

End BlocksDictionary.

(** X6: in the dictionary that [read_blocks] returns every block is stored
    under its own height: the key of an entry is its [conf_height]. *)
Theorem read_blocks_key_is_height (blocks_dict : json)
    (filtered_blocks : gmap Z block_stat) (log : list exn)
    (h : Z) (b : block_stat) :
  read_blocks blocks_dict = (Ok filtered_blocks, log) ->
  filtered_blocks !! h = Some b ->
  conf_height b = h.
Proof.
  unfold read_blocks. destruct (iterate blocks_dict) as [records|e];
    [|discriminate].
  intros Hloop. apply (read_blocks_loop_heights _ _ _ _ _ Hloop).
  intros h' b'. by rewrite lookup_empty.
Qed.

Lemma read_blocks_key_is_height_witness :
  conf_height (BlockStat 103 7 9) = 103.
Proof.
  apply (read_blocks_key_is_height (JArr blocks_with_missing_field)
           (<[103 := BlockStat 103 7 9]> (<[102 := BlockStat 102 12 20]> ∅))
           [KeyError] 103 (BlockStat 103 7 9));
    vm_compute; reflexivity.
Defined.

(** X7: the first block record that fails with an exception outside the
    handler of [read_blocks] ends the load with that exception: the entries
    of the records before it are lost, their diagnostics stay printed and
    the records after it are not read. *)
Theorem read_blocks_aborts_at_first (before after : list json) (r : json)
    (e : exn) :
  Forall recoverable before ->
  block_record r = Raise e ->
  block_handler e = false ->
  read_blocks (JArr (before ++ r :: after)) = (Raise e, diagnostics before).
Proof.
  intros Hbefore Hr He. unfold read_blocks. simpl.
  change (∅ : gmap Z block_stat)
    with (list_to_map (reverse []) : gmap Z block_stat).
  rewrite (read_blocks_loop_app before (r :: after) [] [] Hbefore).
  simpl. by rewrite Hr, He.
Qed.

Lemma read_blocks_aborts_at_first_witness :
  read_blocks
    (JArr (blocks_with_missing_field
           ++ JObj [ ("block_height"%string, JArr []) ]
           :: [ JObj [ ("block_height"%string, JInt 104);
                       ("p_5"%string, JInt 1000);
                       ("p_50"%string, JInt 2000) ] ]))
  = (Raise TypeError, diagnostics blocks_with_missing_field).
Proof.
  apply (read_blocks_aborts_at_first blocks_with_missing_field).
  - repeat constructor; vm_compute; auto.
  - vm_compute. reflexivity.
  - reflexivity.
Defined.

(** X8: when [read_blocks] returns a dictionary, the entry of a height is
    the block of the last record that converts with that height: a later
    record replaces an earlier one of the same height, and nothing else
    enters the dictionary. *)
Theorem read_blocks_last_record_wins (records : list json)
    (filtered_blocks : gmap Z block_stat) (log : list exn)
    (h : Z) (b : block_stat) :
  read_blocks (JArr records) = (Ok filtered_blocks, log) ->
  filtered_blocks !! h = Some b <->
  exists l1 l2, valid_blocks records = l1 ++ (h, b) :: l2 /\ h ∉ l2.*1.
Proof.
  intros Hread. unfold read_blocks in Hread. simpl in Hread.
  pose proof (read_blocks_loop_Ok_recoverable _ _ _ _ _ Hread) as Hrec.
  change (∅ : gmap Z block_stat)
    with (list_to_map (reverse []) : gmap Z block_stat) in Hread.
  rewrite (read_blocks_loop_spec records [] [] Hrec) in Hread.
  injection Hread as <- _. simpl. apply lookup_last_pair.
Qed.

(** Two records of height 101; the second one has other percentiles. *)
Lemma read_blocks_last_record_wins_witness :
  (<[101 := BlockStat 101 3 4]> ∅ : gmap Z block_stat) !! 101
  = Some (BlockStat 101 3 4) <->
  exists l1 l2,
    valid_blocks
      [ JObj [ ("block_height"%string, JInt 101);
               ("p_5"%string, JInt 1000); ("p_50"%string, JInt 2000) ];
        JObj [ ("block_height"%string, JInt 101);
               ("p_5"%string, JInt 3000); ("p_50"%string, JInt 4000) ] ]
    = l1 ++ (101, BlockStat 101 3 4) :: l2 /\ 101 ∉ l2.*1.
Proof.
  apply (read_blocks_last_record_wins _ _ []).
  vm_compute. reflexivity.
Defined.

(** ** The range trimmer on lists in any order *)

Section TrimmerAnyOrder.

Lemma sanity_check_data_snoc (estimates : list estimate) (x : estimate)
    (maximum : Z) :
  sanity_check_data (estimates ++ [x]) maximum
  = if maximum - 1008 <? block_height x
    then sanity_check_data estimates maximum
    else estimates ++ [x].
Proof.
  unfold sanity_check_data. rewrite length_app. simpl length.
  replace (length estimates + 1)%nat with (S (length estimates)) by lia.
  simpl. unfold sanity_guard. rewrite last_snoc.
  destruct (maximum - 1008 <? block_height x); [|done].
  by rewrite removelast_last.
Qed.

Lemma sanity_check_data_stops (estimates : list estimate) (maximum : Z) :
  sanity_guard (maximum - 1008) estimates = false ->
  sanity_check_data estimates maximum = estimates.
Proof.
  intros Hguard. unfold sanity_check_data.
  destruct (length estimates); simpl; [done|]. by rewrite Hguard.
Qed.

End TrimmerAnyOrder.

(** X9: trimming is idempotent: a second call with the same maximum
    removes nothing more. *)
Theorem sanity_check_data_idempotent (estimates : list estimate) (maximum : Z) :
  sanity_check_data (sanity_check_data estimates maximum) maximum
  = sanity_check_data estimates maximum.
Proof.
  apply sanity_check_data_stops.
  destruct (sanity_loop_spec (length estimates) (maximum - 1008) estimates)
    as (removed & _ & _ & Hguard); [lia|].
  exact Hguard.
Qed.

(** X10: whatever the order of the list, an estimate whose block height is
    at most [maximum_block_height - 1008] stops the trimming: it and all
    the estimates before it are kept, also those of a greater block
    height, and only the part after it is trimmed. *)
Theorem sanity_check_data_stops_at (before after : list estimate)
    (e : estimate) (maximum : Z) :
  block_height e <= maximum - 1008 ->
  sanity_check_data (before ++ e :: after) maximum
  = before ++ e :: sanity_check_data after maximum.
Proof.
  intros He. induction after as [|x after IH] using rev_ind.
  - change (sanity_check_data [] maximum) with ([] : list estimate).
    rewrite (sanity_check_data_snoc before e).
    by rewrite (proj2 (Z.ltb_ge _ _) He).
  - rewrite app_comm_cons, app_assoc.
    rewrite (sanity_check_data_snoc (before ++ e :: after) x).
    rewrite (sanity_check_data_snoc after x).
    destruct (maximum - 1008 <? block_height x); [exact IH|].
    by rewrite <- app_assoc.
Qed.

Lemma sanity_check_data_stops_at_witness :
  sanity_check_data
    ([Estimate 2 5000 10 8] ++ Estimate 2 990 10 8 :: [Estimate 2 1000 10 8])
    2000
  = [Estimate 2 5000 10 8] ++ Estimate 2 990 10 8
    :: sanity_check_data [Estimate 2 1000 10 8] 2000.
Proof.
  apply (sanity_check_data_stops_at [Estimate 2 5000 10 8]
           [Estimate 2 1000 10 8] (Estimate 2 990 10 8) 2000).
  simpl. lia.
Defined.

(** X11: when every estimate has a block height above
    [maximum_block_height - 1008], nothing is left. *)
Theorem sanity_check_data_all_recent (estimates : list estimate) (maximum : Z) :
  Forall (fun e => maximum - 1008 < block_height e) estimates ->
  sanity_check_data estimates maximum = [].
Proof.
  induction estimates as [|x estimates IH] using rev_ind; [done|].
  intros Hall. apply Forall_app in Hall as [Hall Hx].
  rewrite sanity_check_data_snoc.
  inv Hx. rename select (_ < block_height x) into Hlt.
  rewrite (proj2 (Z.ltb_lt _ _) Hlt). by apply IH.
Qed.

Lemma sanity_check_data_all_recent_witness :
  sanity_check_data [Estimate 2 993 10 8; Estimate 2 1000 10 8] 2000 = [].
Proof.
  apply sanity_check_data_all_recent.
  repeat constructor; simpl; lia.
Defined.

(** ** The classifier: short targets, the role of the percentiles, buckets *)

Section Judging.

Lemma update_results_ext (r r' : res) (target : Z)
    (result_dict : gmap Z bucket) :
  res_overpaid r = res_overpaid r' ->
  res_within r = res_within r' ->
  update_results r target result_dict = update_results r' target result_dict.
Proof. intros Ho Hw. unfold update_results. by rewrite Ho, Hw. Qed.

(** The overpaid and within-the-range flags after the visits depend on the
    [p_50] of the visited blocks only. *)
Lemma visit_all_overpaid_medians (fee_rate : Z) (found : list block_stat)
    (r : res) :
  res_overpaid (visit_all fee_rate found r)
  = res_overpaid r || existsb (fun m => fee_rate >? m) (p_50 <$> found).
Proof.
  unfold visit_all. revert r. induction found as [|b found IH]; intros r; simpl.
  - by rewrite orb_false_r.
  - rewrite IH, visit_overpaid. by rewrite orb_assoc.
Qed.

Lemma visit_all_within_medians (fee_rate : Z) (found : list block_stat)
    (r : res) :
  res_within (visit_all fee_rate found r)
  = res_within r || existsb (fun m => negb (fee_rate >? m)) (p_50 <$> found).
Proof.
  unfold visit_all. revert r. induction found as [|b found IH]; intros r; simpl.
  - by rewrite orb_false_r.
  - rewrite IH, visit_within. by rewrite orb_assoc.
Qed.

Lemma window_medians (est : estimate) (blocks1 blocks2 : gmap Z block_stat) :
  same_medians blocks1 blocks2 ->
  p_50 <$> window est blocks1 = p_50 <$> window est blocks2.
Proof.
  intros Hsame. unfold window.
  induction (seqZ (block_height est + 1) (conf_target est - 1)) as [|h l IH];
    csimpl; [done|].
  specialize (Hsame h).
  destruct (blocks1 !! h) as [b1|], (blocks2 !! h) as [b2|]; csimpl in *;
    try discriminate; [|done].
  injection Hsame as ->. by rewrite IH.
Qed.

Lemma process_estimate_medians (blocks1 blocks2 : gmap Z block_stat)
    (results : gmap Z bucket * gmap Z bucket) (est : estimate) :
  same_medians blocks1 blocks2 ->
  process_estimate blocks1 results est = process_estimate blocks2 results est.
Proof.
  intros Hsame. unfold process_estimate. destruct results as [c e].
  rewrite !scan_spec.
  pose proof (window_medians est blocks1 blocks2 Hsame) as Hw.
  rewrite (update_results_ext
             (visit_all (conservative_fee_rate est) (window est blocks1) no_flag)
             (visit_all (conservative_fee_rate est) (window est blocks2) no_flag))
    by (by rewrite ?visit_all_overpaid_medians, ?visit_all_within_medians, Hw).
  rewrite (update_results_ext
             (visit_all (economic_fee_rate est) (window est blocks1) no_flag)
             (visit_all (economic_fee_rate est) (window est blocks2) no_flag))
    by (by rewrite ?visit_all_overpaid_medians, ?visit_all_within_medians, Hw).
  done.
Qed.

Lemma estimates_loop_medians (blocks1 blocks2 : gmap Z block_stat)
    (results : gmap Z bucket * gmap Z bucket) (estimates : list estimate) :
  same_medians blocks1 blocks2 ->
  estimates_loop blocks1 results estimates
  = estimates_loop blocks2 results estimates.
Proof.
  intros Hsame. revert results.
  induction estimates as [|est rest IH]; intros results; [done|].
  cbn [estimates_loop].
  rewrite (process_estimate_medians blocks1 blocks2 results est Hsame).
  destruct (process_estimate blocks2 results est); simpl; [apply IH|done].
Qed.

Lemma counted_overpaid_iff (r : res) (target : Z)
    (before after : gmap Z bucket) (b' : bucket) :
  counted_once r target before after ->
  after !! target = Some b' ->
  overpaid b' = overpaid (bucket_before target before) + 1 <->
  res_overpaid r = true.
Proof.
  intros [_ (b'' & Hb'' & _ & _ & _ & Hcount)] Hb'.
  rewrite Hb'' in Hb'. injection Hb' as ->.
  destruct (res_overpaid r), (res_within r);
    destruct Hcount as (Ho & Hw & Hu); split; try done; intros Heq; lia.
Qed.

Lemma counted_within_iff (r : res) (target : Z)
    (before after : gmap Z bucket) (b' : bucket) :
  counted_once r target before after ->
  after !! target = Some b' ->
  within_the_range b' = within_the_range (bucket_before target before) + 1 <->
  res_overpaid r = false /\ res_within r = true.
Proof.
  intros [_ (b'' & Hb'' & _ & _ & _ & Hcount)] Hb'.
  rewrite Hb'' in Hb'. injection Hb' as ->.
  destruct (res_overpaid r), (res_within r);
    destruct Hcount as (Ho & Hw & Hu); split; try done;
    try (intros Heq; lia); by intros [? ?].
Qed.

Lemma counted_judged (fee_rate : Z) (est : estimate)
    (blocks : gmap Z block_stat) (before after : gmap Z bucket) :
  counted_once (visit_all fee_rate (window est blocks) no_flag)
    (conf_target est) before after ->
  judged fee_rate est blocks before after.
Proof.
  intros Hc. pose proof Hc as [_ (b' & Hb' & _)].
  exists b'. split; [exact Hb'|].
  destruct (visit_all_flags_of_window fee_rate est blocks)
    as (_ & Hover & Hwithin).
  split.
  - rewrite (counted_overpaid_iff _ _ _ _ _ Hc Hb'). exact Hover.
  - rewrite (counted_within_iff _ _ _ _ _ Hc Hb'). split.
    + intros [Ho Hw]. apply Hwithin in Hw as (h & block & Hin & Hle).
      split; [eauto|]. intros h' block' Hin'.
      destruct (Z_le_gt_dec fee_rate (p_50 block')) as [|Hgt]; [done|].
      exfalso. apply not_true_iff_false in Ho. apply Ho. apply Hover. eauto.
    + intros [(h & block & Hin) Hall]. split.
      * apply not_true_iff_false. intros Ho.
        apply Hover in Ho as (h' & block' & Hin' & Hgt).
        specialize (Hall h' block' Hin'). lia.
      * apply Hwithin. exists h, block. split; [done|]. exact (Hall h block Hin).
Qed.

End Judging.

(** X12: an estimate whose [conf_target] is at most 1 has no height to
    scan; whatever its fee rates and the blocks, it is counted as underpaid
    in both modes. *)
Theorem short_target_is_underpaid (blocks : gmap Z block_stat)
    (cons_result econs_result : gmap Z bucket) (est : estimate) :
  conf_target est <= 1 ->
  scan est blocks = (block_height est + 1, no_flag, no_flag) /\
  exists cons_result' econs_result',
    process_estimate blocks (cons_result, econs_result) est
    = Ok (cons_result', econs_result') /\
    counted_once no_flag (conf_target est) cons_result cons_result' /\
    counted_once no_flag (conf_target est) econs_result econs_result'.
Proof.
  intros Hct.
  assert (window est blocks = []) as Hw
    by (unfold window; by rewrite seqZ_nil by lia).
  split.
  - rewrite scan_spec, Hw. simpl. do 2 f_equal. lia.
  - destruct (process_estimate_counts blocks cons_result econs_result est)
      as (c' & e' & Hproc & Hc & He).
    rewrite Hw in Hc, He. simpl in Hc, He. eauto.
Qed.

Lemma short_target_is_underpaid_witness :
  exists cons_result' econs_result',
    process_estimate example_blocks (∅, ∅) (Estimate 1 100 1000 1000)
    = Ok (cons_result', econs_result') /\
    counted_once no_flag 1 ∅ cons_result' /\
    counted_once no_flag 1 ∅ econs_result'.
Proof.
  apply (short_target_is_underpaid example_blocks ∅ ∅ (Estimate 1 100 1000 1000)).
  simpl. lia.
Defined.

(** X13: [p_5] has no part in the result: two blocks mappings with the
    same heights and the same [p_50] at each height give the same counts
    and percentages. *)
Theorem results_ignore_p_5 (estimates : list estimate)
    (blocks1 blocks2 : gmap Z block_stat) :
  same_medians blocks1 blocks2 ->
  calculate_percentages estimates blocks1
  = calculate_percentages estimates blocks2.
Proof.
  intros Hsame. unfold calculate_percentages.
  by rewrite (estimates_loop_medians blocks1 blocks2 (∅, ∅) estimates Hsame).
Qed.

Lemma results_ignore_p_5_witness :
  calculate_percentages twelve_estimates
    (<[101 := BlockStat 101 5 9]> ∅)
  = calculate_percentages twelve_estimates
      (<[101 := BlockStat 0 5000 9]> ∅).
Proof.
  apply results_ignore_p_5. intros h. rewrite !lookup_insert.
  case_decide; [reflexivity|]. by rewrite !lookup_empty.
Defined.

(** X14: in each mode, an estimate is counted as overpaid exactly when its
    fee rate is above the [p_50] of some block present in its window, and
    as within the range exactly when the window has a present block and the
    fee rate is above the [p_50] of none of them. *)
Theorem estimate_judged_by_medians (blocks : gmap Z block_stat)
    (cons_result econs_result : gmap Z bucket) (est : estimate) :
  exists cons_result' econs_result',
    process_estimate blocks (cons_result, econs_result) est
    = Ok (cons_result', econs_result') /\
    judged (conservative_fee_rate est) est blocks cons_result cons_result' /\
    judged (economic_fee_rate est) est blocks econs_result econs_result'.
Proof.
  destruct (process_estimate_counts blocks cons_result econs_result est)
    as (c' & e' & Hproc & Hc & He).
  exists c', e'. split; [exact Hproc|]. split; by apply counted_judged.
Qed.

Section Buckets.

Lemma counted_once_keys (r : res) (target t : Z)
    (before after : gmap Z bucket) :
  counted_once r target before after ->
  is_Some (after !! t) <-> t = target \/ is_Some (before !! t).
Proof.
  intros [Hother (b' & Hb' & _)].
  destruct (decide (t = target)) as [->|Hne].
  - rewrite Hb'. split; [by left|by eexists].
  - rewrite (Hother t Hne). split; [by right|]. by intros [?|?].
Qed.

Lemma estimates_loop_keys (blocks : gmap Z block_stat)
    (estimates : list estimate)
    (cons_result econs_result cons_result' econs_result' : gmap Z bucket) :
  estimates_loop blocks (cons_result, econs_result) estimates
  = Ok (cons_result', econs_result') ->
  forall t,
    (is_Some (cons_result' !! t) <->
     is_Some (cons_result !! t) \/ exists e, e ∈ estimates /\ conf_target e = t) /\
    (is_Some (econs_result' !! t) <->
     is_Some (econs_result !! t) \/ exists e, e ∈ estimates /\ conf_target e = t).
Proof.
  revert cons_result econs_result.
  induction estimates as [|est rest IH]; intros c e Hloop t.
  - simpl in Hloop. injection Hloop as <- <-.
    split; (split; [by left|]); intros [H|(x & Hx & _)]; try done;
      by apply elem_of_nil in Hx.
  - cbn [estimates_loop] in Hloop.
    destruct (process_estimate_counts blocks c e est)
      as (c1 & e1 & Hproc & Hc & He).
    rewrite Hproc in Hloop. simpl in Hloop.
    destruct (IH c1 e1 Hloop t) as [Hct Het].
    rewrite Hct, Het.
    rewrite (counted_once_keys _ _ t _ _ Hc), (counted_once_keys _ _ t _ _ He).
    split; (split;
      [ intros [[->|H]|(x & Hx & Hxt)];
        [ right; exists est; split; [apply list_elem_of_here|done]
        | by left
        | right; exists x; split; [by apply list_elem_of_further|done] ]
      | intros [H|(x & Hx & Hxt)]; [by left; right|];
        apply elem_of_cons in Hx as [->|Hx];
        [by left; left|right; by exists x] ]).
Qed.


End Buckets.



(** X16: each result dictionary has a bucket for a [conf_target] exactly
    when some estimate has that [conf_target]; the two modes have the same
    buckets. *)
Theorem buckets_are_the_targets (estimates : list estimate)
    (blocks : gmap Z block_stat) :
  exists cons_result econs_result,
    calculate_percentages estimates blocks = Ok (cons_result, econs_result) /\
    forall t,
      (is_Some (cons_result !! t) <->
       exists e, e ∈ estimates /\ conf_target e = t) /\
      (is_Some (econs_result !! t) <->
       exists e, e ∈ estimates /\ conf_target e = t).
Proof.
  destruct (calculate_percentages_spec estimates blocks)
    as (c & e & Hloop & Hcalc).
  eexists _, _. split; [exact Hcalc|]. intros t.
  destruct (estimates_loop_keys blocks estimates ∅ ∅ c e Hloop t) as [Hc He].
  rewrite !lookup_fmap, !fmap_is_Some, Hc, He, !lookup_empty.
  split; (split; [intros [[? ?]|?]; [discriminate|done] | by right]).
Qed.

(** ** The report *)

Section Report.

Lemma max_key_spec (block_data : gmap Z block_stat) :
  match max_key block_data with
  | None => block_data = ∅
  | Some k =>
      is_Some (block_data !! k) /\
      forall k', is_Some (block_data !! k') -> k' <= k
  end.
Proof.
  unfold max_key.
  apply (map_fold_weak_ind
           (fun acc (m : gmap Z block_stat) =>
              match acc with
              | None => m = ∅
              | Some k =>
                  is_Some (m !! k) /\ forall k', is_Some (m !! k') -> k' <= k
              end)); [done|].
  intros i x m acc Hi Hacc. destruct acc as [k|].
  - destruct Hacc as [Hk Hmax]. split.
    + rewrite lookup_insert. case_decide; [by eexists|].
      assert (Z.max k i = k) as -> by lia. exact Hk.
    + intros k'. rewrite lookup_insert. case_decide; [lia|].
      intros Hk'. specialize (Hmax k' Hk'). lia.
  - subst m. split.
    + rewrite lookup_insert_eq. by eexists.
    + intros k'. rewrite lookup_insert. case_decide; [lia|].
      rewrite lookup_empty. by intros [? ?].
Qed.

Lemma print_categories_complete (b : bucket) (mode : string) :
  complete b ->
  exists lines,
    print_categories b mode categories = (lines, None) /\
    targets_of lines = [] /\ length lines = 3%nat.
Proof.
  intros ([u Hu] & [o Ho] & [w Hw]).
  unfold categories, print_categories, bucket_count, bucket_perc. simpl.
  rewrite Hu, Ho, Hw. eexists. repeat split.
Qed.


Lemma targets_of_app (l1 l2 : list line) :
  targets_of (l1 ++ l2) = targets_of l1 ++ targets_of l2.
Proof. unfold targets_of. apply omap_app. Qed.

Lemma print_summary_complete (its : list (Z * bucket)) (mode : string) :
  Forall (fun it => complete it.2) its ->
  exists lines,
    print_summary its mode = (lines, None) /\
    targets_of lines = its.*1 /\
    length lines = (5 * length its)%nat.
Proof.
  induction 1 as [|[t b] its Hb _ (lines' & Hrest & Htargets & Hlen)];
    [by exists []|].
  destruct (print_categories_complete b mode Hb) as (lines & Hcat & Ht & Hl).
  cbn [print_summary]. rewrite Hcat, Hrest.
  eexists. split; [reflexivity|]. split.
  - change (TargetLine t :: lines ++ RuleLine :: lines')
      with ([TargetLine t] ++ lines ++ [RuleLine] ++ lines').
    rewrite !targets_of_app, Ht, Htargets. done.
  - simpl. rewrite length_app. simpl. lia.
Qed.

Lemma items_with_percentages (keys : list Z) (total : Q)
    (counts : gmap Z bucket) :
  (forall t, t ∈ keys -> is_Some (counts !! t)) ->
  (items keys (with_percentages total <$> counts)).*1 = keys /\
  Forall (fun it => complete it.2)
         (items keys (with_percentages total <$> counts)).
Proof.
  unfold items. induction keys as [|t keys IH]; intros Hkeys; csimpl.
  - split; [done|constructor].
  - destruct (Hkeys t) as [b Hb]; [apply list_elem_of_here|].
    rewrite lookup_fmap, Hb. csimpl.
    destruct IH as [IH1 IH2].
    { intros t' Ht'. apply Hkeys. by apply list_elem_of_further. }
    split; [by rewrite IH1|].
    constructor; [|exact IH2].
    unfold complete. simpl. eauto.
Qed.

Lemma insertion_order_snoc (estimates : list estimate) (e : estimate)
    (keys : list Z) :
  insertion_order (estimates ++ [e]) keys
  = if bool_decide (conf_target e ∈ insertion_order estimates keys)
    then insertion_order estimates keys
    else insertion_order estimates keys ++ [conf_target e].
Proof.
  revert keys. induction estimates as [|x estimates IH]; intros keys; [done|].
  simpl. apply IH.
Qed.

Lemma insertion_order_elem (estimates : list estimate) (t : Z) :
  t ∈ insertion_order estimates [] <->
  exists e, e ∈ estimates /\ conf_target e = t.
Proof.
  induction estimates as [|x estimates IH] using rev_ind.
  - simpl. split; [by intros H%elem_of_nil|].
    intros (e & H%elem_of_nil & _). done.
  - rewrite insertion_order_snoc. case_bool_decide as Hx.
    + rewrite IH. split.
      * intros (e & He & Het). exists e. split; [|done].
        apply elem_of_app. by left.
      * intros (e & He & Het). apply elem_of_app in He as [He|He];
          [by exists e|].
        apply list_elem_of_singleton in He as ->. subst t. by apply IH.
    + rewrite elem_of_app, IH, list_elem_of_singleton. split.
      * intros [(e & He & Het)| ->].
        -- exists e. split; [|done]. apply elem_of_app. by left.
        -- exists x. split; [|done]. apply elem_of_app. right.
           by apply list_elem_of_singleton.
      * intros (e & He & Het). apply elem_of_app in He as [He|He].
        -- left. by exists e.
        -- apply list_elem_of_singleton in He as ->. by right.
Qed.


End Report.

Section Summary.


(** The report of a call that has estimates to judge. *)
Lemma get_summary_report (fees_data : loaded (list estimate))
    (block_data : gmap Z block_stat) (maximum : Z) (first final : estimate) :
  max_key block_data = Some maximum ->
  head (judged_estimates (fees_data, Processed block_data)) = Some first ->
  last (judged_estimates (fees_data, Processed block_data)) = Some final ->
  exists rest,
    get_summary (fees_data, Processed block_data)
    = (TotalLine
         (Z.of_nat (length (judged_estimates (fees_data, Processed block_data))))
         (block_height first - 1) (block_height final - 1)
       :: RuleLine :: rest, None) /\
    targets_of rest
    = insertion_order (judged_estimates (fees_data, Processed block_data)) []
      ++ insertion_order (judged_estimates (fees_data, Processed block_data)) [] /\
    length rest
    = (10 * length (insertion_order
                      (judged_estimates (fees_data, Processed block_data)) []))%nat.
Proof.
  intros Hmax Hfirst Hfinal.
  assert (judged_estimates (fees_data, Processed block_data)
          = sanity_check_data
              match fees_data with Processed es => es | EmptyList => [] end
              maximum) as Hjudged.
  { unfold judged_estimates. destruct fees_data as [es|]; [by rewrite Hmax|].
    done. }
  rewrite Hjudged in *.
  set (kept := sanity_check_data _ maximum) in *.
  unfold get_summary. cbn [fst snd]. rewrite Hmax. fold kept.
  rewrite Hfirst, Hfinal.
  destruct (calculate_percentages_spec kept block_data)
    as (c & e & Hloop & Hcalc).
  rewrite Hcalc.
  assert (forall t, t ∈ insertion_order kept [] ->
                    is_Some (c !! t) /\ is_Some (e !! t)) as Hkeys.
  { intros t Ht. apply insertion_order_elem in Ht.
    destruct (estimates_loop_keys block_data kept ∅ ∅ c e Hloop t) as [Hc He].
    split; [apply Hc|apply He]; by right. }
  destruct (items_with_percentages (insertion_order kept [])
              (inject_Z (Z.of_nat (length kept)) / 12) c) as [Hc1 Hc2];
    [intros t Ht; by apply Hkeys|].
  destruct (items_with_percentages (insertion_order kept [])
              (inject_Z (Z.of_nat (length kept)) / 12) e) as [He1 He2];
    [intros t Ht; by apply Hkeys|].
  destruct (print_summary_complete _ "conservative" Hc2)
    as (lines1 & Hp1 & Ht1 & Hl1).
  destruct (print_summary_complete _ "economic" He2)
    as (lines2 & Hp2 & Ht2 & Hl2).
  rewrite Hp1, Hp2. simpl. eexists. split; [reflexivity|].
  rewrite targets_of_app, Ht1, Ht2, Hc1, He1. split; [done|].
  rewrite length_app, Hl1, Hl2.
  rewrite <- (length_fmap fst (items _ (_ <$> c))), Hc1.
  rewrite <- (length_fmap fst (items _ (_ <$> e))), He1. lia.
Qed.

Lemma head_last_nonempty (l : list estimate) :
  l ≠ [] -> exists first final, head l = Some first /\ last l = Some final.
Proof.
  intros Hne. destruct l as [|x l]; [done|].
  destruct (last (x :: l)) as [y|] eqn:Hlast; [by exists x, y|].
  by apply last_None in Hlast.
Qed.

Lemma judged_estimates_without_blocks (fees_data : loaded (list estimate)) :
  judged_estimates (fees_data, EmptyList) = [].
Proof. by destruct fees_data. Qed.

(** With nothing to judge, the call fails before it writes. *)
Lemma get_summary_nothing_to_judge
    (data : loaded (list estimate) * loaded (gmap Z block_stat)) :
  judged_estimates data = [] ->
  exists e,
    get_summary data = ([], Some e) /\
    ((e = AttributeError /\ data.2 = EmptyList) \/
     (e = Builtin ValueError /\ data.2 = Processed ∅) \/
     (e = IndexError /\
      exists block_data, data.2 = Processed block_data /\ block_data ≠ ∅)).
Proof.
  intros Hjudged. destruct data as [fees_data [block_data|]].
  - pose proof (max_key_spec block_data) as Hspec.
    unfold get_summary. cbn [fst snd].
    unfold judged_estimates in Hjudged.
    destruct (max_key block_data) as [maximum|] eqn:Hmax.
    + exists IndexError. split.
      * destruct fees_data as [es|]; [by rewrite Hjudged|done].
      * right. right. split; [done|]. exists block_data. split; [done|].
        intros ->. destruct Hspec as [[? Hk] _]. by rewrite lookup_empty in Hk.
    + subst block_data. exists (Builtin ValueError). split; [done|]. tauto.
  - exists AttributeError. split; [done|]. tauto.
Qed.

End Summary.



(** X18: [get_summary] fails before it writes anything or not at all.  It
    fails with [AttributeError] when the blocks are the empty list of a
    failed load, with [ValueError] when the blocks dictionary is empty, and
    with [IndexError] when the trimming leaves no estimate; in every other
    case it writes the report and raises nothing. *)
Theorem get_summary_outcomes
    (data : loaded (list estimate) * loaded (gmap Z block_stat)) :
  match (get_summary data).2 with
  | Some e =>
      (get_summary data).1 = [] /\
      ((e = AttributeError /\ data.2 = EmptyList) \/
       (e = Builtin ValueError /\ data.2 = Processed ∅) \/
       (e = IndexError /\ judged_estimates data = [] /\
        exists block_data, data.2 = Processed block_data /\ block_data ≠ ∅))
  | None => judged_estimates data ≠ []
  end.
Proof.
  destruct (judged_estimates data) as [|x l] eqn:Hjudged.
  - destruct (get_summary_nothing_to_judge data Hjudged) as (e & -> & Hcases).
    cbn [fst snd]. split; [done|]. tauto.
  - destruct data as [fees_data [block_data|]];
      [|by rewrite judged_estimates_without_blocks in Hjudged].
    destruct (head_last_nonempty (x :: l)) as (first & final & Hf & Hl);
      [done|].
    rewrite <- Hjudged in Hf, Hl.
    destruct (max_key block_data) as [maximum|] eqn:Hmax.
    + destruct (get_summary_report fees_data block_data maximum first final
                  Hmax Hf Hl) as (rest & -> & _).
      cbn [snd]. done.
    + unfold judged_estimates in Hjudged. rewrite Hmax in Hjudged.
      by destruct fees_data.
Qed.

(** X19: when some estimate is left to judge, the report starts with the
    line of totals: the number of judged estimates, the block height of the
    first one less one and that of the last one less one, which is at most
    the greatest block height less 1009.  A rule follows, and then ten
    lines for each distinct [conf_target]. *)
Theorem get_summary_header (fees_data : loaded (list estimate))
    (block_data : gmap Z block_stat) :
  judged_estimates (fees_data, Processed block_data) ≠ [] ->
  exists maximum first final rest,
    max_key block_data = Some maximum /\
    head (judged_estimates (fees_data, Processed block_data)) = Some first /\
    last (judged_estimates (fees_data, Processed block_data)) = Some final /\
    get_summary (fees_data, Processed block_data)
    = (TotalLine
         (Z.of_nat (length (judged_estimates (fees_data, Processed block_data))))
         (block_height first - 1) (block_height final - 1)
       :: RuleLine :: rest, None) /\
    block_height final - 1 <= maximum - 1009 /\
    length rest
    = (10 * length (insertion_order
                      (judged_estimates (fees_data, Processed block_data)) []))%nat.
Proof.
  intros Hne.
  destruct (max_key block_data) as [maximum|] eqn:Hmax.
  - destruct (head_last_nonempty _ Hne) as (first & final & Hf & Hl).
    destruct (get_summary_report fees_data block_data maximum first final
                Hmax Hf Hl) as (rest & Hsum & _ & Hlen).
    exists maximum, first, final, rest. repeat (split; [done|]).
    split; [|exact Hlen].
    assert (sanity_guard (maximum - 1008)
              (judged_estimates (fees_data, Processed block_data)) = false)
      as Hguard.
    { unfold judged_estimates. rewrite Hmax.
      destruct fees_data as [es|]; [|done].
      destruct (sanity_loop_spec (length es) (maximum - 1008) es)
        as (removed & _ & _ & Hguard); [lia|]. exact Hguard. }
    unfold sanity_guard in Hguard. rewrite Hl in Hguard.
    apply Z.ltb_ge in Hguard. lia.
  - exfalso. apply Hne. unfold judged_estimates. rewrite Hmax.
    by destruct fees_data.
Qed.

Lemma get_summary_header_witness :
  exists maximum first final rest,
    max_key blocks_to_2000 = Some maximum /\
    head (judged_estimates (Processed four_estimates, Processed blocks_to_2000))
    = Some first /\
    last (judged_estimates (Processed four_estimates, Processed blocks_to_2000))
    = Some final /\
    get_summary (Processed four_estimates, Processed blocks_to_2000)
    = (TotalLine
         (Z.of_nat
            (length (judged_estimates
                       (Processed four_estimates, Processed blocks_to_2000))))
         (block_height first - 1) (block_height final - 1)
       :: RuleLine :: rest, None) /\
    block_height final - 1 <= maximum - 1009 /\
    length rest
    = (10 * length (insertion_order
                      (judged_estimates
                         (Processed four_estimates, Processed blocks_to_2000))
                      []))%nat.
Proof.
  apply (get_summary_header (Processed four_estimates) blocks_to_2000).
  vm_compute. discriminate.
Defined.

Section Order.


End Order.


(** X21: when the fees load returns and the blocks file cannot be read or
    is not JSON, the run writes the diagnostics of the loader and no line
    of the report, and ends with an [AttributeError]: the empty list that
    stands for the blocks has no [keys]. *)
Theorem main_without_blocks (fees_file blocks_file : result json)
    (fees_data : loaded (list estimate)) (log : list exn) (e : exn) :
  read_and_process_file fees_file read_fees_quiet = (Ok fees_data, log) ->
  blocks_file = Raise e ->
  file_handler e = true ->
  main fees_file blocks_file = (log ++ [e], [], Some AttributeError).
Proof.
  intros Hfees -> He. unfold main, read_data_from_file.
  rewrite Hfees. simpl. by rewrite He.
Qed.

Lemma main_without_blocks_witness :
  main (Ok (JArr [])) (Raise OSError) = ([] ++ [OSError], [], Some AttributeError).
Proof.
  apply (main_without_blocks (Ok (JArr [])) (Raise OSError) (Processed []));
    reflexivity.
Defined.

(** X22: when the fees file cannot be read or is not JSON and the blocks
    load returns a dictionary, the run writes the diagnostics and no line
    of the report, and ends with a [ValueError] when the dictionary is
    empty and with an [IndexError] otherwise. *)
Theorem main_without_fees (fees_file blocks_file : result json)
    (block_data : gmap Z block_stat) (log : list exn) (e : exn) :
  fees_file = Raise e ->
  file_handler e = true ->
  read_and_process_file blocks_file read_blocks
  = (Ok (Processed block_data), log) ->
  exists status,
    main fees_file blocks_file = ([e] ++ log, [], Some status) /\
    (block_data = ∅ -> status = Builtin ValueError) /\
    (block_data ≠ ∅ -> status = IndexError).
Proof.
  intros -> He Hblocks. unfold main, read_data_from_file.
  simpl. rewrite He, Hblocks.
  destruct (get_summary_nothing_to_judge (EmptyList, Processed block_data))
    as (s & -> & Hcases); [done|].
  exists s. split; [done|]. simpl in Hcases.
  destruct Hcases as [[_ ?]|[[-> Heq]|(-> & bd & Heq & Hne)]];
    [done| |]; injection Heq as ->; split; done.
Qed.

Lemma main_without_fees_witness :
  exists status,
    main (Raise ValueError) (Ok (JArr blocks_with_missing_field))
    = ([ValueError] ++ [KeyError], [], Some status) /\
    ((<[103 := BlockStat 103 7 9]> (<[102 := BlockStat 102 12 20]> ∅)
      : gmap Z block_stat) = ∅ -> status = Builtin ValueError) /\
    ((<[103 := BlockStat 103 7 9]> (<[102 := BlockStat 102 12 20]> ∅)
      : gmap Z block_stat) ≠ ∅ -> status = IndexError).
Proof.
  apply (main_without_fees (Raise ValueError)
           (Ok (JArr blocks_with_missing_field)) _ [KeyError] ValueError);
    vm_compute; reflexivity.
Defined.

(** X23: when the estimates are in the order of their block heights, an
    estimate that the trimming keeps and whose [conf_target] is at most
    1009 is scanned over heights up to the greatest block height only. *)
Theorem kept_windows_are_known (estimates : list estimate) (maximum : Z)
    (e : estimate) (h : Z) :
  Sorted by_height estimates ->
  e ∈ sanity_check_data estimates maximum ->
  conf_target e <= 1009 ->
  block_height e + 1 <= h < block_height e + conf_target e ->
  h <= maximum.
Proof.
  intros Hsorted He Hct Hh.
  rewrite (sanity_check_data_sorted estimates maximum Hsorted) in He.
  apply list_elem_of_filter in He as [Hle _]. lia.
Qed.

Lemma kept_windows_are_known_witness : 997 <= 2000.
Proof.
  apply (kept_windows_are_known four_estimates 2000 (Estimate 6 992 10 8) 997).
  - repeat constructor; unfold by_height; simpl; lia.
  - vm_compute. apply list_elem_of_further, list_elem_of_here.
  - simpl. lia.
  - simpl. lia.
Defined.
